(** * DocumentDB: the IndexedDB document store of [docs-db.js]

    A shallow embedding of [src/docs-db.js] and the properties of its
    operations [sanitizeData], [save], [getByUser], [getById], [delete]
    and [clearUserDocuments].

    Modelling conventions.
    - JavaScript values are the plain data the store can hold: [undefined],
      [null], booleans, numbers, strings, arrays and plain objects.  An
      object is the list of its own enumerable string-keyed properties in
      enumeration order; inherited and accessor properties are outside the
      model.  Assigning to the key [__proto__] of an object literal reaches
      the setter of [Object.prototype] and creates no own property.
    - A string is its sequence of code units, restricted to U+0000..U+00FF
      (one [ascii] each).
    - A number is NaN, an infinity, or a finite rational; only its [typeof],
      its truthiness and its comparison with a primary key are ever used. *)

From stdpp Require Import base list strings numbers gmap.
From Stdlib Require Import Ascii QArith DecimalString.
From Stdlib Require Import Sorting.Sorted Sorting.Permutation.

Close Scope Q_scope.
Local Open Scope string_scope.

(** ** JavaScript values *)

Module Js.

Inductive number : Type :=
| NaN
| Infinity (negative : bool)
| Fin (q : Q).

Unset Elimination Schemes.
Inductive value : Type :=
| VUndefined
| VNull
| VBool (b : bool)
| VNum (n : number)
| VStr (s : string)
| VArr (items : list value)
| VObj (props : list (string * value)).
Set Elimination Schemes.

Definition of_Z (z : Z) : value := VNum (Fin (inject_Z z)).

(** [typeof v] *)
Definition typeof (v : value) : string :=
  match v with
  | VUndefined => "undefined"
  | VNull => "object"
  | VBool _ => "boolean"
  | VNum _ => "number"
  | VStr _ => "string"
  | VArr _ => "object"
  | VObj _ => "object"
  end.

(** [Array.isArray(v)] *)
Definition isArray (v : value) : bool :=
  match v with VArr _ => true | _ => false end.

(** The elements of a value known to be an array. *)
Definition elements (v : value) : list value :=
  match v with VArr items => items | _ => [] end.

(** [v === null] *)
Definition is_null (v : value) : bool :=
  match v with VNull => true | _ => false end.

(** ToBoolean: what [!v] and [v || w] test.  The falsy values are
    [undefined], [null], [false], [0], [NaN] and the empty string. *)
Definition truthy (v : value) : bool :=
  match v with
  | VUndefined | VNull => false
  | VBool b => b
  | VNum NaN => false
  | VNum (Infinity _) => true
  | VNum (Fin q) => negb (Qnum q =? 0)%Z
  | VStr s => negb (String.eqb s EmptyString)
  | VArr _ | VObj _ => true
  end.

(** [a || b] *)
Definition or_else (a b : value) : value := if truthy a then a else b.

(** The decimal rendering of an array index, as [Object.entries] gives it. *)
Definition index_key (i : nat) : string :=
  NilZero.string_of_uint (Nat.to_uint i).

(** [Object.entries(v)] for an object or an array. *)
Definition entries (v : value) : list (string * value) :=
  match v with
  | VObj props => props
  | VArr items => zip (index_key <$> seq 0 (length items)) items
  | _ => []
  end.

(** [o.key] (own property; [undefined] when absent). *)
Fixpoint lookup_prop (key : string) (props : list (string * value)) : value :=
  match props with
  | [] => VUndefined
  | (k, v) :: rest => if String.eqb k key then v else lookup_prop key rest
  end.

Definition get (v : value) (key : string) : value :=
  match v with
  | VObj props => lookup_prop key props
  | _ => VUndefined
  end.

(** [o[key] = v] on an object that began as [{}] and has no property [key]
    yet.  For the key [__proto__] the assignment runs the setter inherited
    from [Object.prototype], which may change the prototype but creates no
    own property; any other key is added after the existing ones. *)
Definition assign (o : list (string * value)) (key : string) (v : value)
  : list (string * value) :=
  if String.eqb key "__proto__" then o else o ++ [(key, v)].

(** The string held by a value known to be one. *)
Definition as_string (v : value) : string :=
  match v with VStr s => s | _ => EmptyString end.

(** WhiteSpace and LineTerminator code units below U+0100: TAB, LF, VT, FF,
    CR, SPACE and NBSP. *)
Definition is_space (c : ascii) : bool :=
  let n := nat_of_ascii c in
  ((n =? 9) || (n =? 10) || (n =? 11) || (n =? 12) || (n =? 13)
   || (n =? 32) || (n =? 160))%nat.

Fixpoint trimStart (s : string) : string :=
  match s with
  | EmptyString => EmptyString
  | String c rest => if is_space c then trimStart rest else s
  end.

Definition trimEnd (s : string) : string :=
  String.rev (trimStart (String.rev s)).

(** [s.trim()] *)
Definition trim (s : string) : string := trimEnd (trimStart s).

(** [s.replace(/c/g, r)] for a single code unit [c]. *)
Fixpoint replace_all (c : ascii) (r : string) (s : string) : string :=
  match s with
  | EmptyString => EmptyString
  | String a rest =>
      if Ascii.eqb a c then r +:+ replace_all c r rest
      else String a (replace_all c r rest)
  end.

End Js.

Import Js.

(** ** The object store

    [indexedDB.open('DocumentsDB', 1)] provisions one object store,
    [documents], with key path [id] and a key generator.  The store is the
    list of its records in ascending key order, as a cursor or an index on
    equal index keys yields them, together with the current number of its
    key generator (exhaustion of the generator at 2^53 is not modelled). *)

(** The object literal that [save] builds.  [createdAt] holds the instant
    whose ISO-8601 rendering the source stores. *)
Record document : Type := {
  docId : string;
  title : string;
  data : value;
  userId : string;
  timestamp : Z;
  createdAt : Z;
  docType : value;
}.

(** A stored record: the document with the generated key injected at the
    key path [id]. *)
Record stored : Type := {
  id : Z;
  fields : document;
}.

Record objectStore : Type := {
  records : list stored;
  keygen : Z;
}.

Definition createObjectStore : objectStore := {| records := []; keygen := 1 |}.

(** Whether the key [key] given by a caller denotes the primary key [k].
    Every primary key of the store is a generated integer, so only a finite
    number can match. *)
Definition key_is (key : value) (k : Z) : bool :=
  match key with
  | VNum (Fin q) => Qeq_bool q (inject_Z k)
  | _ => false
  end.

(** [store.add(document)] without a key: the generator supplies it. *)
Definition store_add (d : document) (s : objectStore) : Z * objectStore :=
  (keygen s,
   {| records := records s ++ [{| id := keygen s; fields := d |}];
      keygen := keygen s + 1 |}).

(** [store.get(key)] *)
Definition store_get (key : value) (s : objectStore) : option stored :=
  List.find (λ r, key_is key (id r)) (records s).

(** [store.delete(key)] *)
Definition store_delete (key : value) (s : objectStore) : objectStore :=
  {| records := List.filter (λ r, negb (key_is key (id r))) (records s);
     keygen := keygen s |}.

(** [store.index('userId').getAll(key)] *)
Definition index_userId_getAll (key : string) (s : objectStore) : list stored :=
  List.filter (λ r, String.eqb (userId (fields r)) key) (records s).

(** [Array.prototype.sort(comparefn)]: a stable sort, here by insertion.
    [comparefn a b <= 0] keeps [a] before [b]. *)
Fixpoint sort_insert {A} (comparefn : A → A → Z) (x : A) (l : list A) : list A :=
  match l with
  | [] => [x]
  | y :: rest =>
      if (comparefn x y <=? 0)%Z then x :: l
      else y :: sort_insert comparefn x rest
  end.

Definition sort {A} (comparefn : A → A → Z) (l : list A) : list A :=
  foldr (sort_insert comparefn) [] l.

(** ** The host and the promise monad *)

(** The value of a rejected promise: [new Error(message)]. *)
Inductive error : Type := Error (message : string).

(** A settled promise. *)
Inductive outcome (A : Type) : Type :=
| Resolved (a : A)
| Rejected (e : error).
Arguments Resolved {A} a.
Arguments Rejected {A} e.

(** The requests the code makes to IndexedDB. *)
Inductive request : Type :=
| Open
| Add (d : document)
| GetAll (key : string)
| Get (key : value)
| Delete (key : value).

(** What the code cannot control: whether [window.indexedDB] exists, which
    requests the browser answers with an [error] event (and the message of
    the error it carries), and what the system clock reads. *)
Record host : Type := {
  indexedDB : bool;
  fault : request → option string;
  clock : nat → Z;
}.

Inductive level : Type := Log | Err.

Record world : Type := {
  database : option objectStore;
  ticks : nat;
  console : list (level * string);
  issued : list request;
}.

(** A fresh browser profile: no database yet. *)
Definition pristine : world :=
  {| database := None; ticks := 0; console := []; issued := [] |}.

(** The store a connection sees. *)
Definition documents (w : world) : objectStore :=
  default createObjectStore (database w).

Definition io (A : Type) : Type := world → outcome A * world.

#[global] Instance io_ret : MRet io := λ A a w, (Resolved a, w).
#[global] Instance io_bind : MBind io := λ A B f m w,
  match m w with
  | (Resolved a, w') => f a w'
  | (Rejected e, w') => (Rejected e, w')
  end.
#[global] Instance io_throw : MThrow error io := λ A e w, (Rejected e, w).

(** [try { m } catch (error) { handler(error) }] *)
Definition try_catch {A} (m : io A) (handler : error → io A) : io A := λ w,
  match m w with
  | (Resolved a, w') => (Resolved a, w')
  | (Rejected e, w') => handler e w'
  end.

(** [if (c) { m }] *)
Definition when_ (c : bool) (m : io unit) : io unit :=
  if c then m else mret tt.

Definition console_put (l : level) (text : string) : io unit := λ w,
  (Resolved tt,
   {| database := database w; ticks := ticks w;
      console := console w ++ [(l, text)]; issued := issued w |}).

Definition with_store {A} (f : objectStore → A * objectStore) : io A := λ w,
  let '(a, s) := f (documents w) in
  (Resolved a,
   {| database := Some s; ticks := ticks w;
      console := console w; issued := issued w |}).

(** [error?.message || 'Unknown error'] *)
Definition reason (message : string) : string :=
  if String.eqb message EmptyString then "Unknown error" else message.

(** [Promise.all(tasks)] over tasks that are already running: every task
    runs to completion, and the result is rejected with the first rejection
    in array order.  Requests of one store are served in the order in which
    their transactions were created, which is the array order here; how the
    requests of different tasks interleave is not modelled. *)
Fixpoint Promise_all {A} (tasks : list (io A)) : io (list A) := λ w,
  match tasks with
  | [] => (Resolved [], w)
  | task :: rest =>
      let '(first, w1) := task w in
      let '(others, w2) := Promise_all rest w1 in
      (match first, others with
       | Rejected e, _ => Rejected e
       | Resolved _, Rejected e => Rejected e
       | Resolved a, Resolved l => Resolved (a :: l)
       end, w2)
  end.

Section Host.
Context (h : host).

(** [Date.now()] and [new Date()]: one reading of the clock each. *)
Definition Date_now : io Z := λ w,
  (Resolved (clock h (ticks w)),
   {| database := database w; ticks := S (ticks w);
      console := console w; issued := issued w |}).

(** Hands a request to the browser; the answer is the message of the error
    it fires, if it fires one. *)
Definition send (r : request) : io (option string) := λ w,
  (Resolved (fault h r),
   {| database := database w; ticks := ticks w;
      console := console w; issued := issued w ++ [r] |}).

(** [initDB()]: the promise of an open connection.  [onupgradeneeded]
    creates the [documents] store when the database has none. *)
Definition initDB : io unit :=
  if negb (indexedDB h) then
    mthrow (Error "IndexedDB not supported in this browser")
  else
    answer ← send Open;
    match answer with
    | Some message =>
        console_put Err "Database failed to open:" ;;
        mthrow (Error ("Database error: " +:+ reason message))
    | None => with_store (λ s, (tt, s))
    end.

(** A request inside a transaction, with the handlers the code installs.
    An [error] event reaches [request.onerror] first, which logs under
    [label] and rejects the promise with [prefix] and the reason; it then
    bubbles to [transaction.onerror] and to the [db.onerror] set by
    [initDB], which only log (the promise is settled already). *)
Definition transact (r : request) (label prefix : string) : io unit :=
  answer ← send r;
  match answer with
  | Some message =>
      console_put Err label ;;
      console_put Err "Transaction failed:" ;;
      console_put Err "Database error:" ;;
      mthrow (Error (prefix +:+ reason message))
  | None => mret tt
  end.

End Host.

(** ** [DocumentDB] *)

Module DocumentDB.

Definition quote : ascii := ascii_of_nat 34.

(** The chain of five [replace] calls applied to a string property. *)
Definition escape (val : string) : string :=
  replace_all "/" "&#x2F;"
    (replace_all "'" "&#x27;"
      (replace_all quote "&quot;"
        (replace_all ">" "&gt;"
          (replace_all "<" "&lt;" val)))).

(** The callback of [value.map] in the array branch. *)
Definition sanitizeItem (self : value → value) (item : value) : value :=
  if String.eqb (typeof item) "object" then self item else item.

(** The body of the [for] loop: what is stored under [key] for the entry's
    value [val]. *)
Definition sanitizeProperty (self : value → value) (val : value) : value :=
  match val with
  | VStr s => VStr (escape s)
  | VArr items => VArr (sanitizeItem self <$> items)
  | VObj _ => self val
  | _ => val
  end.

(** [sanitizeData(data)].  The guard returns everything that is falsy or
    not of type [object]; the loop then runs over [Object.entries(data)],
    which for an array are its elements keyed by index, and assigns each
    sanitized value to [sanitized[key]], starting from [{}]. *)
Fixpoint sanitizeData (data : value) : value :=
  match data with
  | VObj props =>
      VObj (foldl
              (λ sanitized kv,
                 assign sanitized kv.1 (sanitizeProperty sanitizeData kv.2))
              [] props)
  | VArr items =>
      VObj (foldl (λ sanitized kv, assign sanitized kv.1 kv.2) []
              (zip (index_key <$> seq 0 (length items))
                   (sanitizeProperty sanitizeData <$> items)))
  | _ => data
  end.

Section Operations.
Context (h : host).

(** [save(docId, title, data, userId)].  The promise built inside the [try]
    is returned without being awaited, so only a rejection of [initDB]
    passes through the [catch]. *)
Definition save (docId title data userId : value) : io Z :=
  console_put Log "DocumentDB.save called with:" ;;
  when_ (negb (truthy docId) || negb (String.eqb (typeof docId) "string"))
    (mthrow (Error "Invalid docId provided")) ;;
  when_ (negb (truthy title) || negb (String.eqb (typeof title) "string"))
    (mthrow (Error "Invalid title provided")) ;;
  when_ (negb (truthy data) || negb (String.eqb (typeof data) "object"))
    (mthrow (Error "Invalid data provided")) ;;
  when_ (negb (truthy userId) || negb (String.eqb (typeof userId) "string"))
    (mthrow (Error "Invalid userId provided")) ;;
  try_catch (initDB h)
    (λ e, console_put Err "Save operation failed:" ;; mthrow e) ;;
  let sanitizedData := sanitizeData data in
  timestamp ← Date_now h;
  createdAt ← Date_now h;
  let document :=
    {| docId := trim (as_string docId);
       title := trim (as_string title);
       data := sanitizedData;
       userId := trim (as_string userId);
       timestamp := timestamp;
       createdAt := createdAt;
       docType := or_else (get data "docType") (VStr "unknown") |} in
  console_put Log "Saving document to IndexedDB:" ;;
  transact h (Add document) "Error saving document:" "Add operation failed: " ;;
  result ← with_store (store_add document);
  console_put Log "Document saved successfully with ID:" ;;
  mret result.

(** [getByUser(userId)] *)
Definition getByUser (userId : value) : io (list stored) :=
  when_ (negb (truthy userId) || negb (String.eqb (typeof userId) "string"))
    (mthrow (Error "Invalid userId provided")) ;;
  try_catch (initDB h)
    (λ e, console_put Err "GetByUser operation failed:" ;; mthrow e) ;;
  let key := trim (as_string userId) in
  transact h (GetAll key) "GetAll operation failed:" "GetAll failed: " ;;
  result ← with_store (λ s, (index_userId_getAll key s, s));
  mret (sort (λ a b, timestamp (fields b) - timestamp (fields a))%Z result).

(** [getById(id)]: [None] is the [null] that [request.result || null]
    yields when no record has the key. *)
Definition getById (id : value) : io (option stored) :=
  when_ (negb (truthy id)
         || (negb (String.eqb (typeof id) "string")
             && negb (String.eqb (typeof id) "number")))
    (mthrow (Error "Invalid id provided")) ;;
  try_catch (initDB h)
    (λ e, console_put Err "GetById operation failed:" ;; mthrow e) ;;
  transact h (Get id) "Get operation failed:" "Get failed: " ;;
  with_store (λ s, (store_get id s, s)).

(** [delete(id)] *)
Definition delete (id : value) : io unit :=
  when_ (negb (truthy id)
         || (negb (String.eqb (typeof id) "string")
             && negb (String.eqb (typeof id) "number")))
    (mthrow (Error "Invalid id provided")) ;;
  try_catch (initDB h)
    (λ e, console_put Err "Delete operation failed:" ;; mthrow e) ;;
  transact h (Delete id) "Delete operation failed:" "Delete failed: " ;;
  with_store (λ s, (tt, store_delete id s)) ;;
  console_put Log "Document deleted successfully".

(** [clearUserDocuments(userId)] *)
Definition clearUserDocuments (userId : value) : io nat :=
  when_ (negb (truthy userId) || negb (String.eqb (typeof userId) "string"))
    (mthrow (Error "Invalid userId provided")) ;;
  try_catch
    (docs ← getByUser userId;
     let deletePromises := (λ doc, delete (of_Z (id doc))) <$> docs in
     Promise_all deletePromises ;;
     console_put Log
       ("Cleared " +:+ index_key (length docs) +:+ " documents for user: "
        +:+ as_string userId) ;;
     mret (length docs))
    (λ e, console_put Err "Clear user documents failed:" ;; mthrow e).

End Operations.

End DocumentDB.

Import DocumentDB.

(** ** Vocabulary of the specification *)

(** The HTML entity that stands for each of the five characters, after
    the specification; any other code unit stands for itself. *)
Definition entity (c : ascii) : string :=
  if Ascii.eqb c "<" then "&lt;"
  else if Ascii.eqb c ">" then "&gt;"
  else if Ascii.eqb c quote then "&quot;"
  else if Ascii.eqb c "'" then "&#x27;"
  else if Ascii.eqb c "/" then "&#x2F;"
  else String c EmptyString.

(** A string with each of its code units replaced by its [entity]. *)
Fixpoint escape_spec (s : string) : string :=
  match s with
  | EmptyString => EmptyString
  | String c rest => entity c +:+ escape_spec rest
  end.

(** The claimed behaviour of sanitization, after the specification: every
    string leaf is escaped, mappings and sequences keep their shape, other
    scalars pass through. *)
Fixpoint sanitize_spec (v : value) : value :=
  match v with
  | VStr s => VStr (escape_spec s)
  | VArr items => VArr (sanitize_spec <$> items)
  | VObj props => VObj ((λ kv, (kv.1, sanitize_spec kv.2)) <$> props)
  | _ => v
  end.

(** The entries that become own properties when assigned one by one to a
    fresh object: all but those keyed [__proto__]. *)
Definition own_entries (l : list (string * value)) : list (string * value) :=
  List.filter (λ kv, negb (String.eqb kv.1 "__proto__")) l.

(** Whether the code unit [c] occurs in [s]. *)
Fixpoint occurs (c : ascii) (s : string) : bool :=
  match s with
  | EmptyString => false
  | String a rest => Ascii.eqb a c || occurs c rest
  end.

(** The five code units that [escape] rewrites. *)
Definition targets : list ascii := ["<"; ">"; quote; "'"; "/"]%char.

(** The inputs on which sanitization is specified by [sanitize_spec]: a
    string occurs only as the value of a mapping key, a sequence occurs
    only as the value of a mapping key and holds no string and no sequence,
    and no mapping has a key named [__proto__].  [under_key] tells whether
    [v] sits directly under a mapping key. *)
Fixpoint within_design (under_key : bool) (v : value) : bool :=
  match v with
  | VStr _ => under_key
  | VArr items => under_key && forallb (within_design false) items
  | VObj props =>
      forallb
        (λ kv, negb (String.eqb kv.1 "__proto__") && within_design true kv.2)
        props
  | _ => true
  end.

(** A non-empty string. *)
Definition nonempty_string (v : value) : bool :=
  match v with
  | VStr s => negb (String.eqb s EmptyString)
  | _ => false
  end.

(** A structured, non-null object: a mapping or a sequence. *)
Definition structured (v : value) : bool :=
  match v with
  | VObj _ | VArr _ => true
  | _ => false
  end.

(** The precondition of [save]. *)
Definition save_precondition (docId title data userId : value) : bool :=
  nonempty_string docId && nonempty_string title && structured data
  && nonempty_string userId.

(** A finite number with an integral value. *)
Definition integral (q : Q) : bool := (Z.pos (Qden (Qred q)) =? 1)%Z.

(** The precondition on [id] as the specification words it: a non-empty
    string or an integer. *)
Definition string_or_integer (id : value) : bool :=
  match id with
  | VStr s => negb (String.eqb s EmptyString)
  | VNum (Fin q) => integral q
  | _ => false
  end.

(** The ids that [getById] and [delete] take: a non-empty string, or a
    number other than zero and NaN. *)
Definition string_or_nonzero (id : value) : bool :=
  match id with
  | VStr s => negb (String.eqb s EmptyString)
  | VNum (Fin q) => negb (Qeq_bool q 0)
  | VNum (Infinity _) => true
  | _ => false
  end.

(** The errors of the validation class: they name the offending
    parameter. *)
Definition ValidationError (e : error) : Prop :=
  ∃ parameter, e = Error ("Invalid " +:+ parameter +:+ " provided").

(** Nothing was asked of the database and nothing in it changed. *)
Definition untouched (w w' : world) : Prop :=
  database w' = database w ∧ issued w' = issued w ∧ ticks w' = ticks w.

(** A host that has IndexedDB and serves every request. *)
Definition healthy (h : host) : Prop :=
  indexedDB h = true ∧ ∀ r, fault h r = None.

(** The invariant of the key generator: keys start at 1 and every key in
    use is below the generator's current number. *)
Definition wf_store (s : objectStore) : Prop :=
  (1 ≤ keygen s)%Z ∧ Forall (λ r, (1 ≤ id r < keygen s)%Z) (records s).

Definition wf (w : world) : Prop := wf_store (documents w).

(** The records of [w] owned by [user]. *)
Definition owned (user : string) (w : world) : list stored :=
  List.filter (λ r, String.eqb (userId (fields r)) user) (records (documents w)).

(** No record of [w] has the primary key denoted by [key]. *)
Definition absent (key : value) (w : world) : Prop :=
  Forall (λ r, key_is key (id r) = false) (records (documents w)).

(** Most recent first. *)
Definition newer_first (a b : stored) : Prop :=
  (timestamp (fields b) ≤ timestamp (fields a))%Z.

(** A payload for examples. *)
Definition invoice : value :=
  VObj [("docType", VStr "invoice"); ("note", VStr "a/b");
        ("total", VNum (Fin 3));
        ("rows", VArr [VObj [("item", VStr "<i>")]; VNull])].

(** A host on which nothing fails; its clock counts the readings. *)
Definition steady : host :=
  {| indexedDB := true; fault := λ _, None; clock := Z.of_nat |}.

(** A host whose lookups and deletes fail. *)
Definition flaky : host :=
  {| indexedDB := true;
     fault := λ r,
       match r with
       | Get _ | Delete _ => Some "quota"
       | _ => None
       end;
     clock := Z.of_nat |}.

(** A small store for examples: three records of two users. *)
Definition note (k : Z) (user : string) (at_time : Z) : stored :=
  {| id := k;
     fields :=
       {| docId := "d"; title := "t"; data := VObj []; userId := user;
          timestamp := at_time; createdAt := at_time;
          docType := VStr "unknown" |} |}.

Definition archive : world :=
  {| database :=
       Some {| records := [note 1 "u1" 5; note 2 "u2" 7; note 3 "u1" 9];
               keygen := 4 |};
     ticks := 0; console := []; issued := [] |}.

(** Whether none of the [targets] occurs in [s]. *)
Definition raw_free (s : string) : bool :=
  forallb (λ c, negb (occurs c s)) targets.

(** Whether every string held under a mapping key of [v], at any depth, is
    [raw_free].  [under_key] tells whether [v] sits directly under a mapping
    key. *)
Fixpoint keyed_strings_escaped (under_key : bool) (v : value) : bool :=
  match v with
  | VStr s => if under_key then raw_free s else true
  | VArr items => forallb (keyed_strings_escaped false) items
  | VObj props => forallb (λ kv, keyed_strings_escaped true kv.2) props
  | _ => true
  end.

(** The document that [save] builds in the world [w]. *)
Definition built (h : host) (w : world) (docId title data userId : value)
  : document :=
  {| docId := trim (as_string docId);
     title := trim (as_string title);
     data := sanitizeData data;
     userId := trim (as_string userId);
     timestamp := clock h (ticks w);
     createdAt := clock h (S (ticks w));
     docType := or_else (get data "docType") (VStr "unknown") |}.

(** The records are in strictly ascending key order. *)
Definition keys_ascending (w : world) : Prop :=
  StronglySorted (λ a b, (id a < id b)%Z) (records (documents w)).

(** Most recent first and, at equal timestamps, lowest key first. *)
Definition newest_then_lowest_key (a b : stored) : Prop :=
  (timestamp (fields b) < timestamp (fields a))%Z
  ∨ (timestamp (fields b) = timestamp (fields a) ∧ (id a < id b)%Z).

(** Whether the host answers the delete of the record [r] with an error. *)
Definition delete_fails (h : host) (r : stored) : bool :=
  match fault h (Delete (of_Z (id r))) with
  | Some _ => true
  | None => false
  end.

(** Whether the record [r] is still there after the deletes of [docs] have
    been attempted: no delete that the host serves has its key. *)
Definition survives (h : host) (docs : list stored) (r : stored) : bool :=
  forallb (λ doc, delete_fails h doc || negb (id doc =? id r)%Z) docs.

(** Every payload in the store has its keyed strings escaped. *)
Definition payloads_escaped (w : world) : Prop :=
  Forall (λ r, keyed_strings_escaped false (data (fields r)) = true)
    (records (documents w)).

(** A browser without IndexedDB. *)
Definition headless : host :=
  {| indexedDB := false; fault := λ _, None; clock := Z.of_nat |}.

(** A host that refuses to open the database, without a message. *)
Definition locked : host :=
  {| indexedDB := true;
     fault := λ r, match r with Open => Some EmptyString | _ => None end;
     clock := Z.of_nat |}.

(** A host on which the record with key 3 cannot be deleted. *)
Definition sticky : host :=
  {| indexedDB := true;
     fault := λ r,
       match r with
       | Delete key => if key_is key 3 then Some "locked row" else None
       | _ => None
       end;
     clock := Z.of_nat |}.

(** A store in which timestamps repeat. *)
Definition tied : world :=
  {| database :=
       Some {| records := [note 1 "u1" 5; note 2 "u1" 9; note 3 "u1" 5;
                           note 4 "u1" 9];
               keygen := 5 |};
     ticks := 0; console := []; issued := [] |}.

(** ** The rate limiter of [docs-api.js]

    [rateLimiter.calls] is a map from the API type to the array of the
    times of its recent calls.  [now] is what [Date.now()] reads at the
    call; the warning written to the console on refusal is left out. *)

Module rateLimiter.

Definition maxCalls : nat := 10.
Definition timeWindow : Z := 60000.

(** [canMakeCall(apiType)]: the answer and the map afterwards.  The array
    stored before the test is the one [push] extends, so the map sees the
    new time. *)
Definition canMakeCall (now : Z) (apiType : string)
    (calls : gmap string (list Z)) : bool * gmap string (list Z) :=
  let previous := default [] (calls !! apiType) in
  let recentCalls :=
    List.filter (λ time, (now - time <? timeWindow)%Z) previous in
  if (maxCalls <=? length recentCalls)%nat then
    (false, <[apiType := recentCalls]> calls)
  else
    (true, <[apiType := (recentCalls ++ [now])%list]> calls).

End rateLimiter.

(** A sequence of calls, each with the reading of the clock and its API
    type, run from the map [calls]: the calls that were allowed, and the
    map at the end. *)
Fixpoint replay (events : list (Z * string)) (calls : gmap string (list Z))
  : list (Z * string) * gmap string (list Z) :=
  match events with
  | [] => ([], calls)
  | (now, apiType) :: rest =>
      let '(allowed, calls') := rateLimiter.canMakeCall now apiType calls in
      let '(later, final) := replay rest calls' in
      (if allowed then (now, apiType) :: later else later, final)
  end.

(** The times of the calls of type [apiType] in a log. *)
Definition times_of (apiType : string) (log : list (Z * string)) : list Z :=
  (List.filter (λ e, String.eqb e.2 apiType) log).*1.

(** Whether [time] lies in the window of length [timeWindow] ending at
    [T]. *)
Definition within (T time : Z) : bool :=
  (T - rateLimiter.timeWindow <? time)%Z && (time <=? T)%Z.

(** Twelve calls of one API type, one millisecond apart, with a call of
    another type among them. *)
Definition burst : list (Z * string) :=
  ((λ n, (Z.of_nat n, "exchange")) <$> seq 0 6)
  ++ [(6%Z, "pincode")]
  ++ ((λ n, (Z.of_nat n, "exchange")) <$> seq 6 6).

(** ** Structural induction on values *)

Section value_induction.
Variable P : value → Prop.
Hypothesis Hundefined : P VUndefined.
Hypothesis Hnull : P VNull.
Hypothesis Hbool : ∀ b, P (VBool b).
Hypothesis Hnum : ∀ n, P (VNum n).
Hypothesis Hstr : ∀ s, P (VStr s).
Hypothesis Harr : ∀ items, Forall P items → P (VArr items).
Hypothesis Hobj : ∀ props, Forall (λ kv, P kv.2) props → P (VObj props).

Fixpoint value_ind (v : value) : P v :=
  match v with
  | VUndefined => Hundefined
  | VNull => Hnull
  | VBool b => Hbool b
  | VNum n => Hnum n
  | VStr s => Hstr s
  | VArr items =>
      Harr items
        ((fix all (l : list value) : Forall P l :=
            match l with
            | [] => Forall_nil_2 P
            | x :: l' => Forall_cons_2 P x l' (value_ind x) (all l')
            end) items)
  | VObj props =>
      Hobj props
        ((fix all (l : list (string * value)) : Forall (λ kv, P kv.2) l :=
            match l with
            | [] => Forall_nil_2 _
            | kv :: l' => Forall_cons_2 _ kv l' (value_ind kv.2) (all l')
            end) props)
  end.
End value_induction.

(** * Properties *)

(** ** Shape of [sanitizeData] *)

(** The loop of assignments keeps, in order, the entries that are not
    keyed [__proto__]. *)
Lemma foldl_assign (f : value → value) l : ∀ sanitized,
  foldl (λ sanitized kv, assign sanitized kv.1 (f kv.2)) sanitized l
  = (sanitized ++ own_entries ((λ kv, (kv.1, f kv.2)) <$> l))%list.
Proof.
  induction l as [|[k x] l IH]; intros sanitized; csimpl.
  - by rewrite app_nil_r.
  - rewrite IH. unfold assign, own_entries. cbn [List.filter fst].
    destruct (String.eqb k "__proto__"); cbn [negb]; [done|].
    by rewrite <- app_assoc.
Qed.

Lemma own_entries_cons k x l :
  own_entries ((k, x) :: l)
  = if String.eqb k "__proto__" then own_entries l else (k, x) :: own_entries l.
Proof. unfold own_entries. simpl. by destruct (String.eqb k "__proto__"). Qed.

Lemma index_key_plain i : String.eqb (index_key i) "__proto__" = false.
Proof.
  unfold index_key. by destruct (Nat.to_uint i) as [|d|d|d|d|d|d|d|d|d|d].
Qed.

Lemma own_entries_indexed (xs : list value) : ∀ n,
  own_entries (zip (index_key <$> seq n (length xs)) xs)
  = zip (index_key <$> seq n (length xs)) xs.
Proof.
  induction xs as [|x xs IH]; intros n; [done|].
  cbn [length seq fmap list_fmap zip zip_with].
  rewrite own_entries_cons, index_key_plain. f_equal. apply IH.
Qed.

Lemma sanitizeData_object props :
  sanitizeData (VObj props)
  = VObj (own_entries
            ((λ kv, (kv.1, sanitizeProperty sanitizeData kv.2)) <$> props)).
Proof. simpl. by rewrite foldl_assign. Qed.

Lemma sanitizeData_array items :
  sanitizeData (VArr items)
  = VObj (zip (index_key <$> seq 0 (length items))
              (sanitizeProperty sanitizeData <$> items)).
Proof.
  simpl. f_equal.
  rewrite (foldl_assign (λ x, x)). simpl.
  assert (∀ l : list (string * value), (λ kv, (kv.1, kv.2)) <$> l = l) as ->.
  { induction l as [|[k x] l IH]; csimpl; [done|]. by rewrite IH. }
  rewrite <- (length_fmap (sanitizeProperty sanitizeData) items).
  apply own_entries_indexed.
Qed.

(** [sanitizeData] has the shape of the source: the guard, then one
    assignment per entry of [Object.entries(data)]. *)
Lemma sanitizeData_unfold data :
  sanitizeData data =
  if negb (truthy data) || negb (String.eqb (typeof data) "object") then data
  else
    VObj (foldl
            (λ sanitized kv,
               assign sanitized kv.1 (sanitizeProperty sanitizeData kv.2))
            [] (entries data)).
Proof.
  destruct data as [| |b|n|s|items|props]; try reflexivity.
  - by destruct b.
  - destruct n as [| |q]; simpl; try done. by destruct (Qnum q =? 0)%Z.
  - simpl. by destruct (String.eqb s EmptyString).
  - simpl. f_equal.
    generalize (index_key <$> seq 0 (length items)).
    generalize (@nil (string * value)).
    induction items as [|x items IH]; intros sanitized [|k ks]; simpl;
      auto.
Qed.

(** [sanitizeProperty] is the chain of tests in the loop body. *)
Lemma sanitizeProperty_unfold self val :
  sanitizeProperty self val =
  if String.eqb (typeof val) "string" then VStr (escape (as_string val))
  else if isArray val then VArr (sanitizeItem self <$> elements val)
  else if String.eqb (typeof val) "object" && negb (is_null val) then self val
  else val.
Proof. by destruct val. Qed.

(** ** Facts about [replace_all] and [escape] *)

Lemma occurs_app c s t : occurs c (s +:+ t) = occurs c s || occurs c t.
Proof.
  induction s as [|a s IH]; simpl; [done|].
  by rewrite IH, orb_assoc.
Qed.

Lemma replace_all_absent c r s : occurs c s = false → replace_all c r s = s.
Proof.
  induction s as [|a s IH]; simpl; [done|].
  intros [Ha Hs]%orb_false_iff. rewrite Ha. by rewrite IH.
Qed.

Lemma occurs_replace_all x c r s :
  occurs x r = false →
  x = c ∨ occurs x s = false →
  occurs x (replace_all c r s) = false.
Proof.
  intros Hr Hs. induction s as [|a s IH]; simpl; [done|].
  destruct (Ascii.eqb a c) eqn:Hac.
  - rewrite occurs_app, Hr. simpl. apply IH.
    destruct Hs as [->|Hs]; [by left|right].
    simpl in Hs. by apply orb_false_iff in Hs as [_ ?].
  - simpl. apply orb_false_iff. split.
    + destruct Hs as [->|Hs]; [done|].
      simpl in Hs. by apply orb_false_iff in Hs as [? _].
    + apply IH. destruct Hs as [->|Hs]; [by left|right].
      simpl in Hs. by apply orb_false_iff in Hs as [_ ?].
Qed.

(** No raw target character survives [escape]. *)
Lemma escape_clean s c : c ∈ targets → occurs c (escape s) = false.
Proof.
  unfold targets, escape. intros Hc.
  repeat (apply elem_of_cons in Hc as [->|Hc]);
    [..|by apply elem_of_nil in Hc];
    repeat first
      [ apply occurs_replace_all; [reflexivity|by left]
      | apply occurs_replace_all; [reflexivity|right] ].
Qed.

Local Ltac is_target := apply escape_clean; unfold targets; repeat constructor.

Lemma escape_idempotent s : escape (escape s) = escape s.
Proof.
  unfold escape at 1.
  rewrite (replace_all_absent "<") by is_target.
  rewrite (replace_all_absent ">") by is_target.
  rewrite (replace_all_absent quote) by is_target.
  rewrite (replace_all_absent "'") by is_target.
  by rewrite (replace_all_absent "/") by is_target.
Qed.

(** ** The five replacements are the entity table *)

Lemma append_cons a (s t : string) : String a s +:+ t = String a (s +:+ t).
Proof. reflexivity. Qed.

Lemma append_assoc (r s t : string) : (r +:+ s) +:+ t = r +:+ (s +:+ t).
Proof.
  induction r as [|b r IH]; [done|]. rewrite !append_cons. by rewrite IH.
Qed.

Lemma replace_all_app c r s t :
  replace_all c r (s +:+ t) = replace_all c r s +:+ replace_all c r t.
Proof.
  induction s as [|a s IH]; [done|].
  rewrite append_cons. cbn [replace_all].
  destruct (Ascii.eqb a c); rewrite IH; [|done].
  by rewrite append_assoc.
Qed.

Lemma escape_app s t : escape (s +:+ t) = escape s +:+ escape t.
Proof. unfold escape. by rewrite !replace_all_app. Qed.

Lemma escape_one c : escape (String c EmptyString) = entity c.
Proof.
  unfold escape, entity. simpl.
  destruct (Ascii.eqb c "<"); [reflexivity|]. simpl.
  destruct (Ascii.eqb c ">"); [reflexivity|]. simpl.
  destruct (Ascii.eqb c quote); [reflexivity|]. simpl.
  destruct (Ascii.eqb c "'"); [reflexivity|]. simpl.
  by destruct (Ascii.eqb c "/").
Qed.

(** The chain of [replace] calls, in its order, replaces each of the five
    characters by its entity and nothing else. *)
Lemma escape_is_escape_spec s : escape s = escape_spec s.
Proof.
  induction s as [|c s IH]; [done|].
  change (String c s) with (String c EmptyString +:+ s).
  rewrite escape_app, escape_one, IH. done.
Qed.

(** ** Sanitization is idempotent *)

Lemma sanitizeData_object_typed v :
  String.eqb (typeof v) "object" = true →
  String.eqb (typeof (sanitizeData v)) "object" = true.
Proof. by destruct v. Qed.

Lemma sanitizeItem_idempotent v :
  sanitizeData (sanitizeData v) = sanitizeData v →
  sanitizeItem sanitizeData (sanitizeItem sanitizeData v)
  = sanitizeItem sanitizeData v.
Proof.
  intros IH. unfold sanitizeItem.
  destruct (String.eqb (typeof v) "object") eqn:Hv.
  - by rewrite sanitizeData_object_typed, IH.
  - by rewrite Hv.
Qed.

Lemma sanitize_fixed_point v :
  sanitizeData (sanitizeData v) = sanitizeData v
  ∧ sanitizeProperty sanitizeData (sanitizeProperty sanitizeData v)
    = sanitizeProperty sanitizeData v.
Proof.
  induction v as [| |b|n|s|items IH|props IH] using value_ind;
    try (split; reflexivity).
  - split; [done|]. simpl. by rewrite escape_idempotent.
  - split.
    + rewrite sanitizeData_array, sanitizeData_object. f_equal.
      generalize 0.
      induction IH as [|x items [_ Hx] _ IHitems]; intros n; [done|].
      cbn [length seq fmap list_fmap zip zip_with fst snd].
      rewrite own_entries_cons, index_key_plain.
      f_equal; [by rewrite Hx | apply IHitems].
    + simpl. f_equal.
      induction IH as [|x items [Hx _] _ IHitems]; csimpl; [done|].
      f_equal; [by apply sanitizeItem_idempotent | apply IHitems].
  - assert (sanitizeData (sanitizeData (VObj props))
            = sanitizeData (VObj props)) as Hobj.
    { rewrite !sanitizeData_object. f_equal.
      induction IH as [|[k x] props [_ Hx] _ IHprops]; [done|].
      cbn [fmap list_fmap fst snd] in *. rewrite own_entries_cons.
      destruct (String.eqb k "__proto__") eqn:Hk; [exact IHprops|].
      cbn [fmap list_fmap fst snd]. rewrite own_entries_cons, Hk.
      f_equal; [f_equal; exact Hx | exact IHprops]. }
    split; [done|]. exact Hobj.
Qed.

(** C3: sanitizing an already sanitized value changes nothing. *)
Theorem sanitizeData_idempotent v :
  sanitizeData (sanitizeData v) = sanitizeData v.
Proof. apply sanitize_fixed_point. Qed.

(** ** Where sanitization agrees with its specification *)

Lemma sanitize_within_design v :
  (within_design false v = true → sanitizeData v = sanitize_spec v)
  ∧ (within_design true v = true →
     sanitizeProperty sanitizeData v = sanitize_spec v).
Proof.
  induction v as [| |b|n|s|items IH|props IH] using value_ind;
    try (split; reflexivity).
  - split; [done|]. intros _. simpl. by rewrite escape_is_escape_spec.
  - split; [done|]. simpl. intros Hitems. f_equal.
    induction IH as [|x items [Hx _] _ IHitems]; csimpl; [done|].
    simpl in Hitems. apply andb_prop in Hitems as [Hx' Hitems'].
    f_equal; [|by apply IHitems].
    unfold sanitizeItem. destruct (String.eqb (typeof x) "object") eqn:Hobj.
    + by apply Hx.
    + destruct x; try done.
  - assert (within_design false (VObj props) = true →
            sanitizeData (VObj props) = sanitize_spec (VObj props)) as Hobj.
    { rewrite sanitizeData_object. simpl. intros Hprops. f_equal.
      induction IH as [|[k x] props [_ Hx] _ IHprops]; [done|].
      cbn [fmap list_fmap fst snd forallb] in *.
      apply andb_prop in Hprops as [Hkx Hprops'].
      apply andb_prop in Hkx as [Hk Hx']. apply negb_true_iff in Hk.
      rewrite own_entries_cons, Hk.
      f_equal; [f_equal; by apply Hx | by apply IHprops]. }
    split; exact Hobj.
Qed.

(** C2 (as stated, refuted): a string given as the top-level input is
    returned with its markup characters intact, where the claim has it
    escaped. *)
Lemma sanitizeData_top_level_string_kept :
  sanitizeData (VStr "<b>") ≠ sanitize_spec (VStr "<b>").
Proof. discriminate. Qed.

(** C2 (amended): on a mapping or non-string scalar in which every string
    and every sequence is the value of a mapping key, sequences hold only
    mappings and non-string scalars and no key is named [__proto__],
    [sanitizeData] returns the copy of the same shape, with all its keys,
    in which every string has each of the five characters replaced by its
    HTML entity; and any top-level input that is not an object, a string
    included, is returned unchanged. *)
Theorem sanitizeData_by_design v :
  (within_design false v = true → sanitizeData v = sanitize_spec v)
  ∧ (String.eqb (typeof v) "object" = false → sanitizeData v = v).
Proof.
  split; [apply sanitize_within_design|]. by destruct v.
Qed.

Lemma sanitizeData_by_design_witness :
  sanitizeData invoice = sanitize_spec invoice
  ∧ sanitizeData (VStr "a/b") = VStr "a/b".
Proof.
  split.
  - apply (proj1 (sanitizeData_by_design invoice)). reflexivity.
  - apply (proj2 (sanitizeData_by_design (VStr "a/b"))). reflexivity.
Defined.

Example sanitizeData_invoice :
  sanitizeData invoice
  = VObj [("docType", VStr "invoice"); ("note", VStr "a&#x2F;b");
          ("total", VNum (Fin 3));
          ("rows", VArr [VObj [("item", VStr "&lt;i&gt;")]; VNull])].
Proof. reflexivity. Qed.

(** What [sanitize_spec] demands of a sequence of strings. *)
Example sanitize_spec_example :
  sanitize_spec (VObj [("note", VStr "a/b"); ("tags", VArr [VStr "<i>"])])
  = VObj [("note", VStr "a&#x2F;b"); ("tags", VArr [VStr "&lt;i&gt;"])].
Proof. reflexivity. Qed.

(** Outside that domain the code departs from the specification: a string
    element of a sequence is not escaped, a sequence that is the input or
    an element of a sequence comes back as a mapping keyed by index, and an
    entry keyed [__proto__] is lost. *)
Example sanitizeData_array_string_kept :
  sanitizeData (VObj [("note", VStr "a/b"); ("tags", VArr [VStr "<i>"])])
  = VObj [("note", VStr "a&#x2F;b"); ("tags", VArr [VStr "<i>"])].
Proof. reflexivity. Qed.

Example sanitizeData_top_level_array :
  sanitizeData (VArr [VStr "<"; VNum (Fin 1)])
  = VObj [("0", VStr "&lt;"); ("1", VNum (Fin 1))].
Proof. reflexivity. Qed.

Example sanitizeData_nested_array :
  sanitizeData (VObj [("m", VArr [VArr [VBool true]])])
  = VObj [("m", VArr [VObj [("0", VBool true)]])].
Proof. reflexivity. Qed.

Example sanitizeData_proto_key_lost :
  sanitizeData (VObj [("__proto__", VObj [("x", VStr "<")]); ("a", VStr "<")])
  = VObj [("a", VStr "&lt;")].
Proof. reflexivity. Qed.

(** ** Running the operations on a healthy host *)

Local Ltac unfold_io :=
  unfold mbind, io_bind, mret, io_ret, mthrow, io_throw, try_catch, when_,
    initDB, transact, send, with_store, console_put, Date_now.

Lemma nonempty_truthy s :
  s ≠ EmptyString → negb (String.eqb s EmptyString) = true.
Proof. intros Hs. by destruct s. Qed.

Lemma structured_passes data :
  structured data = true →
  negb (truthy data) || negb (String.eqb (typeof data) "object") = false.
Proof. by destruct data. Qed.

Lemma save_runs h w d t dat u :
  healthy h → d ≠ EmptyString → t ≠ EmptyString → structured dat = true →
  u ≠ EmptyString →
  ∃ w',
    save h (VStr d) (VStr t) dat (VStr u) w
    = (Resolved (keygen (documents w)), w')
    ∧ documents w'
      = (store_add
           {| docId := trim d; title := trim t; data := sanitizeData dat;
              userId := trim u; timestamp := clock h (ticks w);
              createdAt := clock h (S (ticks w));
              docType := or_else (get dat "docType") (VStr "unknown") |}
           (documents w)).2.
Proof.
  intros [Hidb Hfault] Hd Ht Hdat Hu.
  unfold save. unfold_io. simpl.
  rewrite (nonempty_truthy d), (nonempty_truthy t), (nonempty_truthy u) by done.
  rewrite (structured_passes dat) by done.
  repeat (progress (unfold_io; simpl; rewrite ?Hidb, ?Hfault)).
  eexists. split; reflexivity.
Qed.

Lemma id_guard_passes id :
  string_or_nonzero id = true →
  negb (truthy id)
  || (negb (String.eqb (typeof id) "string")
      && negb (String.eqb (typeof id) "number")) = false.
Proof.
  destruct id as [| |b|[| |q]|s|items|props]; simpl; try done.
  - unfold Qeq_bool. simpl. rewrite Z.mul_1_r, Z.mul_0_l.
    by destruct (Qnum q =? 0)%Z.
  - by destruct (String.eqb s EmptyString).
Qed.

Lemma id_guard_rejects id :
  string_or_nonzero id = false →
  negb (truthy id)
  || (negb (String.eqb (typeof id) "string")
      && negb (String.eqb (typeof id) "number")) = true.
Proof.
  destruct id as [| |b|[| |q]|s|items|props]; simpl; try done.
  - by destruct b.
  - unfold Qeq_bool. simpl. rewrite Z.mul_1_r, Z.mul_0_l.
    by destruct (Qnum q =? 0)%Z.
  - by destruct (String.eqb s EmptyString).
Qed.

Lemma getById_runs h w id :
  healthy h → string_or_nonzero id = true →
  ∃ w',
    getById h id w = (Resolved (store_get id (documents w)), w')
    ∧ documents w' = documents w.
Proof.
  intros [Hidb Hfault] Hid. unfold getById.
  rewrite (id_guard_passes id) by done.
  repeat (progress (unfold_io; simpl; rewrite ?Hidb, ?Hfault)).
  eexists. split; reflexivity.
Qed.

Lemma delete_runs h w id :
  healthy h → string_or_nonzero id = true →
  ∃ w',
    delete h id w = (Resolved tt, w')
    ∧ documents w' = store_delete id (documents w).
Proof.
  intros [Hidb Hfault] Hid. unfold delete.
  rewrite (id_guard_passes id) by done.
  repeat (progress (unfold_io; simpl; rewrite ?Hidb, ?Hfault)).
  eexists. split; reflexivity.
Qed.

Lemma getByUser_runs h w u :
  healthy h → u ≠ EmptyString →
  ∃ w',
    getByUser h (VStr u) w
    = (Resolved
         (sort (λ a b, timestamp (fields b) - timestamp (fields a))%Z
            (owned (trim u) w)), w')
    ∧ documents w' = documents w.
Proof.
  intros [Hidb Hfault] Hu. unfold getByUser. unfold_io. simpl.
  rewrite (nonempty_truthy u) by done.
  repeat (progress (unfold_io; simpl; rewrite ?Hidb, ?Hfault)).
  eexists. split; reflexivity.
Qed.

(** ** The key generator invariant *)

Lemma key_is_of_Z a b : key_is (of_Z a) b = (a =? b)%Z.
Proof. unfold key_is, of_Z, Qeq_bool. simpl. by rewrite !Z.mul_1_r. Qed.

Lemma wf_pristine : wf pristine.
Proof. split; [done|constructor]. Qed.

Lemma wf_store_add d s : wf_store s → wf_store (store_add d s).2.
Proof.
  intros [Hgen Hkeys]. split; simpl; [lia|].
  apply Forall_app. split.
  - eapply List.Forall_impl; [|exact Hkeys]. simpl. intros r Hr. lia.
  - repeat constructor; simpl; lia.
Qed.

Lemma wf_store_delete key s : wf_store s → wf_store (store_delete key s).
Proof.
  intros [Hgen Hkeys]. split; [done|]. simpl.
  rewrite List.Forall_forall in *. intros r Hr.
  apply Hkeys. apply filter_In in Hr. tauto.
Qed.

Lemma find_fresh_key k rs new :
  Forall (λ r, (id r < k)%Z) rs → id new = k →
  List.find (λ r, key_is (of_Z k) (id r)) (rs ++ [new]) = Some new.
Proof.
  intros Hkeys Hnew. induction Hkeys as [|r rs Hr _ IH]; cbn [app List.find].
  - by rewrite key_is_of_Z, Hnew, Z.eqb_refl.
  - rewrite key_is_of_Z. destruct (Z.eqb_spec k (id r)); [lia|done].
Qed.

Lemma store_get_add d s :
  wf_store s →
  store_get (of_Z (keygen s)) (store_add d s).2
  = Some {| id := keygen s; fields := d |}.
Proof.
  intros [_ Hkeys]. apply find_fresh_key; [|done].
  eapply List.Forall_impl; [|exact Hkeys]. simpl. intros r Hr. lia.
Qed.

Lemma healthy_steady : healthy steady.
Proof. by split. Qed.

Lemma generated_key_accepted k : (1 ≤ k)%Z → string_or_nonzero (of_Z k) = true.
Proof.
  intros Hk. unfold of_Z, string_or_nonzero, Qeq_bool. simpl.
  rewrite Z.mul_1_r, Z.mul_0_l. destruct (Z.eqb_spec k 0); [lia|done].
Qed.

(** ** [save] followed by [getById] *)

(** What [save] leaves behind on a healthy host: the generated key, and
    under that key the document it built. *)
Lemma save_then_lookup h w d t dat u :
  healthy h → wf w → d ≠ EmptyString → t ≠ EmptyString →
  structured dat = true → u ≠ EmptyString →
  ∃ w1 w2,
    save h (VStr d) (VStr t) dat (VStr u) w
    = (Resolved (keygen (documents w)), w1)
    ∧ getById h (of_Z (keygen (documents w))) w1
      = (Resolved
           (Some
              {| id := keygen (documents w);
                 fields :=
                   {| docId := trim d; title := trim t;
                      data := sanitizeData dat; userId := trim u;
                      timestamp := clock h (ticks w);
                      createdAt := clock h (S (ticks w));
                      docType :=
                        or_else (get dat "docType") (VStr "unknown") |} |}),
         w2).
Proof.
  intros Hh Hwf Hd Ht Hdat Hu.
  destruct (save_runs h w d t dat u) as (w1 & Hsave & Hdocs); try done.
  destruct (getById_runs h w1 (of_Z (keygen (documents w)))) as (w2 & Hget & _);
    [done|apply generated_key_accepted, Hwf|].
  exists w1, w2. split; [done|].
  by rewrite Hget, Hdocs, store_get_add.
Qed.

(** C1: on a healthy host, a valid [save] resolves with a key under which
    [getById] finds a record whose [docId], [title] and [userId] are the
    trimmed arguments (the title is not escaped) and whose [data] is
    [sanitizeData] of the argument. *)
Theorem save_then_getById h w d t dat u :
  healthy h → wf w → d ≠ EmptyString → t ≠ EmptyString →
  structured dat = true → u ≠ EmptyString →
  ∃ k w1 r w2,
    save h (VStr d) (VStr t) dat (VStr u) w = (Resolved k, w1)
    ∧ getById h (of_Z k) w1 = (Resolved (Some r), w2)
    ∧ id r = k
    ∧ docId (fields r) = trim d
    ∧ title (fields r) = trim t
    ∧ userId (fields r) = trim u
    ∧ data (fields r) = sanitizeData dat.
Proof.
  intros Hh Hwf Hd Ht Hdat Hu.
  destruct (save_then_lookup h w d t dat u) as (w1 & w2 & Hsave & Hget);
    try done.
  eexists _, w1, _, w2. split; [exact Hsave|]. split; [exact Hget|]. done.
Qed.

Lemma save_then_getById_witness :
  ∃ k w1 r w2,
    save steady (VStr "inv-001") (VStr "Invoice <1>")
      (VObj [("docType", VStr "invoice"); ("note", VStr "a/b")])
      (VStr " u1 ") pristine
    = (Resolved k, w1)
    ∧ getById steady (of_Z k) w1 = (Resolved (Some r), w2)
    ∧ id r = k
    ∧ docId (fields r) = trim "inv-001"
    ∧ title (fields r) = trim "Invoice <1>"
    ∧ userId (fields r) = trim " u1 "
    ∧ data (fields r)
      = sanitizeData (VObj [("docType", VStr "invoice"); ("note", VStr "a/b")]).
Proof.
  apply save_then_getById;
    [ split; [reflexivity | intros; reflexivity]
    | split; [vm_compute; discriminate | constructor]
    | discriminate | discriminate | reflexivity | discriminate ].
Defined.

(** The scenario of the specification, run. *)
Example save_invoice_scenario :
  (save steady (VStr "inv-001") (VStr "Invoice <1>")
     (VObj [("docType", VStr "invoice"); ("note", VStr "a/b")])
     (VStr "u1") ;;
   getById steady (of_Z 1)) pristine
  = (Resolved
       (Some
          {| id := 1;
             fields :=
               {| docId := "inv-001"; title := "Invoice <1>";
                  data := VObj [("docType", VStr "invoice");
                                ("note", VStr "a&#x2F;b")];
                  userId := "u1"; timestamp := 0; createdAt := 1;
                  docType := VStr "invoice" |} |}),
     {| database :=
          Some
            {| records :=
                 [{| id := 1;
                     fields :=
                       {| docId := "inv-001"; title := "Invoice <1>";
                          data := VObj [("docType", VStr "invoice");
                                        ("note", VStr "a&#x2F;b")];
                          userId := "u1"; timestamp := 0; createdAt := 1;
                          docType := VStr "invoice" |} |}];
               keygen := 2 |};
        ticks := 2;
        console :=
          [(Log, "DocumentDB.save called with:");
           (Log, "Saving document to IndexedDB:");
           (Log, "Document saved successfully with ID:")];
        issued :=
          [Open;
           Add
             {| docId := "inv-001"; title := "Invoice <1>";
                data := VObj [("docType", VStr "invoice");
                              ("note", VStr "a&#x2F;b")];
                userId := "u1"; timestamp := 0; createdAt := 1;
                docType := VStr "invoice" |};
           Open; Get (of_Z 1)] |}).
Proof. reflexivity. Qed.

(** ** The [docType] of a saved record *)

Lemma lookup_prop_sanitized key props s :
  String.eqb key "__proto__" = false →
  lookup_prop key props = VStr s →
  lookup_prop key
    (own_entries
       ((λ kv, (kv.1, sanitizeProperty sanitizeData kv.2)) <$> props))
  = VStr (escape s).
Proof.
  intros Hkey. induction props as [|[k v] props IH]; [done|].
  cbn [fmap list_fmap fst snd lookup_prop]. rewrite own_entries_cons.
  destruct (String.eqb k key) eqn:Hk.
  - apply String.eqb_eq in Hk as ->. rewrite Hkey. cbn [lookup_prop].
    rewrite String.eqb_refl. by intros ->.
  - destruct (String.eqb k "__proto__"); [exact IH|].
    cbn [lookup_prop]. rewrite Hk. exact IH.
Qed.

Lemma get_sanitized dat key s :
  String.eqb key "__proto__" = false →
  get dat key = VStr s → get (sanitizeData dat) key = VStr (escape s).
Proof.
  intros Hkey. destruct dat; try done.
  rewrite sanitizeData_object. by apply lookup_prop_sanitized.
Qed.

(** C10: the [docType] field of the stored record is the raw, unsanitized
    [data.docType] when that is truthy and ["unknown"] otherwise: a string
    there is stored as it came while its copy inside the payload is
    escaped, and the empty string is recorded as ["unknown"]. *)
Theorem save_docType_is_raw h w d t dat u :
  healthy h → wf w → d ≠ EmptyString → t ≠ EmptyString →
  structured dat = true → u ≠ EmptyString →
  ∃ k w1 r w2,
    save h (VStr d) (VStr t) dat (VStr u) w = (Resolved k, w1)
    ∧ getById h (of_Z k) w1 = (Resolved (Some r), w2)
    ∧ docType (fields r)
      = (if truthy (get dat "docType") then get dat "docType"
         else VStr "unknown")
    ∧ (∀ s, get dat "docType" = VStr s → s ≠ EmptyString →
         docType (fields r) = VStr s
         ∧ get (data (fields r)) "docType" = VStr (escape s))
    ∧ (get dat "docType" = VStr EmptyString →
         docType (fields r) = VStr "unknown").
Proof.
  intros Hh Hwf Hd Ht Hdat Hu.
  destruct (save_then_lookup h w d t dat u) as (w1 & w2 & Hsave & Hget);
    try done.
  eexists _, w1, _, w2. split; [exact Hsave|]. split; [exact Hget|].
  simpl. unfold or_else. split; [done|]. split.
  - intros s Hs Hne. rewrite Hs. simpl. rewrite nonempty_truthy by done.
    split; [done|]. by apply get_sanitized.
  - by intros ->.
Qed.

Lemma save_docType_is_raw_witness :
  ∃ k w1 r w2,
    save steady (VStr "d") (VStr "t") (VObj [("docType", VStr "<b>")])
      (VStr "u") pristine
    = (Resolved k, w1)
    ∧ getById steady (of_Z k) w1 = (Resolved (Some r), w2)
    ∧ docType (fields r) = VStr "<b>"
    ∧ get (data (fields r)) "docType" = VStr "&lt;b&gt;".
Proof.
  destruct (save_docType_is_raw steady pristine "d" "t"
              (VObj [("docType", VStr "<b>")]) "u")
    as (k & w1 & r & w2 & Hsave & Hget & _ & Hraw & _);
    [ split; [reflexivity | intros; reflexivity]
    | split; [vm_compute; discriminate | constructor]
    | discriminate | discriminate | reflexivity | discriminate | ].
  exists k, w1, r, w2. split; [exact Hsave|]. split; [exact Hget|].
  apply (Hraw "<b>"); [reflexivity | discriminate].
Defined.

Example save_markup_docType :
  (save steady (VStr "d") (VStr "t") (VObj [("docType", VStr "<b>")])
     (VStr "u") ;;
   r ← getById steady (of_Z 1);
   mret ((λ r, (docType (fields r), get (data (fields r)) "docType")) <$> r))
    pristine
  = ((save steady (VStr "d") (VStr "t") (VObj [("docType", VStr "<b>")])
        (VStr "u") ;;
      getById steady (of_Z 1) ;;
      mret (Some (VStr "<b>", VStr "&lt;b&gt;"))) pristine).
Proof. vm_compute. reflexivity. Qed.

Example save_empty_docType :
  (save steady (VStr "d") (VStr "t")
     (VObj [("docType", VStr EmptyString)]) (VStr "u") ;;
   r ← getById steady (of_Z 1);
   mret (docType ∘ fields <$> r)) pristine
  = ((save steady (VStr "d") (VStr "t")
        (VObj [("docType", VStr EmptyString)]) (VStr "u") ;;
      getById steady (of_Z 1) ;;
      mret (Some (VStr "unknown"))) pristine).
Proof. vm_compute. reflexivity. Qed.

(** ** [Array.prototype.sort] *)

Section sort_facts.
Context {A : Type} (comparefn : A → A → Z).
Hypothesis total : ∀ x y, (comparefn x y ≤ 0 ∨ comparefn y x ≤ 0)%Z.
Hypothesis transitive :
  ∀ x y z, (comparefn x y ≤ 0 → comparefn y z ≤ 0 → comparefn x z ≤ 0)%Z.

Lemma sort_insert_Permutation x l : sort_insert comparefn x l ≡ₚ x :: l.
Proof.
  induction l as [|y l IH]; simpl; [done|].
  destruct (comparefn x y <=? 0)%Z; [done|].
  rewrite IH. apply Permutation_swap.
Qed.

Lemma sort_Permutation l : sort comparefn l ≡ₚ l.
Proof.
  induction l as [|x l IH]; simpl; [done|].
  by rewrite sort_insert_Permutation, IH.
Qed.

Lemma sort_insert_sorted x l :
  StronglySorted (λ a b, (comparefn a b ≤ 0)%Z) l →
  StronglySorted (λ a b, (comparefn a b ≤ 0)%Z) (sort_insert comparefn x l).
Proof.
  induction 1 as [|y l Hsorted IH Hy]; simpl.
  - repeat constructor.
  - destruct (Z.leb_spec (comparefn x y) 0) as [Hxy|Hxy].
    + constructor; [by constructor|].
      constructor; [done|].
      eapply List.Forall_impl; [|exact Hy]. intros z Hyz. by eapply transitive.
    + constructor; [done|].
      eapply Permutation_Forall;
        [symmetry; apply sort_insert_Permutation|].
      constructor; [|done]. destruct (total x y); [lia|done].
Qed.

Lemma sort_sorted l :
  StronglySorted (λ a b, (comparefn a b ≤ 0)%Z) (sort comparefn l).
Proof.
  induction l as [|x l IH]; simpl; [constructor|].
  by apply sort_insert_sorted.
Qed.

End sort_facts.

(** ** [getByUser] *)

Lemma StronglySorted_weaken {A} (R R' : A → A → Prop) l :
  (∀ a b, R a b → R' a b) → StronglySorted R l → StronglySorted R' l.
Proof.
  intros HR. induction 1 as [|x l _ IH Hx]; constructor; [done|].
  eapply List.Forall_impl; [|exact Hx]. intros b. apply HR.
Qed.

Lemma newest_first_sorted l :
  StronglySorted newer_first
    (sort (λ a b, timestamp (fields b) - timestamp (fields a))%Z l).
Proof.
  eapply StronglySorted_weaken; [|apply sort_sorted].
  - unfold newer_first. intros a b. simpl. lia.
  - intros x y. lia.
  - intros x y z. lia.
Qed.

(** C4: on a healthy host, [getByUser] resolves with exactly the records
    whose [userId] is the trimmed argument, most recent first; with no such
    record it resolves with the empty sequence. *)
Theorem getByUser_newest_first h w u :
  healthy h → u ≠ EmptyString →
  ∃ docs w',
    getByUser h (VStr u) w = (Resolved docs, w')
    ∧ docs ≡ₚ List.filter (λ r, String.eqb (userId (fields r)) (trim u))
                (records (documents w))
    ∧ StronglySorted newer_first docs
    ∧ (owned (trim u) w = [] → docs = []).
Proof.
  intros Hh Hu.
  destruct (getByUser_runs h w u) as (w' & Hrun & _); [done..|].
  eexists _, w'. split; [exact Hrun|]. split; [|split].
  - apply sort_Permutation.
  - apply newest_first_sorted.
  - by intros ->.
Qed.

Lemma getByUser_newest_first_witness :
  (∃ docs w',
     getByUser steady (VStr " u1") archive = (Resolved docs, w')
     ∧ docs ≡ₚ [note 1 "u1" 5; note 3 "u1" 9]
     ∧ StronglySorted newer_first docs)
  ∧ (∃ w', getByUser steady (VStr "nobody") archive = (Resolved [], w')).
Proof.
  split.
  - destruct (getByUser_newest_first steady archive " u1")
      as (docs & w' & Hrun & Hperm & Hsorted & _);
      [ split; [reflexivity | intros; reflexivity] | discriminate | ].
    exists docs, w'. split; [exact Hrun|]. split; [exact Hperm | exact Hsorted].
  - destruct (getByUser_newest_first steady archive "nobody")
      as (docs & w' & Hrun & _ & _ & Hnone);
      [ split; [reflexivity | intros; reflexivity] | discriminate | ].
    exists w'. rewrite <- (Hnone eq_refl). exact Hrun.
Defined.

(** The scenario of the specification: two saves of one user at times
    T1 < T2 come back as [T2-record; T1-record]. *)
Example getByUser_two_saves :
  (save steady (VStr "a") (VStr "first") (VObj []) (VStr "u1") ;;
   save steady (VStr "b") (VStr "second") (VObj []) (VStr "u1") ;;
   docs ← getByUser steady (VStr "u1");
   mret ((λ r, (title (fields r), timestamp (fields r))) <$> docs)) pristine
  = ((save steady (VStr "a") (VStr "first") (VObj []) (VStr "u1") ;;
      save steady (VStr "b") (VStr "second") (VObj []) (VStr "u1") ;;
      getByUser steady (VStr "u1") ;;
      mret [("second", 2%Z); ("first", 0%Z)]) pristine).
Proof. vm_compute. reflexivity. Qed.

(** ** Validation *)

Lemma string_guard v :
  negb (truthy v) || negb (String.eqb (typeof v) "string")
  = negb (nonempty_string v).
Proof.
  destruct v as [| |b|[| |q]|s|items|props]; simpl; try done.
  - by destruct b.
  - by destruct (Qnum q =? 0)%Z.
  - by destruct (String.eqb s EmptyString).
Qed.

Lemma object_guard v :
  negb (truthy v) || negb (String.eqb (typeof v) "object")
  = negb (structured v).
Proof.
  destruct v as [| |b|[| |q]|s|items|props]; simpl; try done.
  - by destruct b.
  - by destruct (Qnum q =? 0)%Z.
  - by destruct (String.eqb s EmptyString).
Qed.

Lemma invalid_is_ValidationError parameter :
  ValidationError (Error ("Invalid " +:+ parameter +:+ " provided")).
Proof. by exists parameter. Qed.

Lemma save_invalid h w docId title data userId :
  save_precondition docId title data userId = false →
  ∃ e w',
    save h docId title data userId w = (Rejected e, w')
    ∧ ValidationError e ∧ untouched w w'.
Proof.
  unfold save_precondition, save. rewrite !string_guard, object_guard.
  destruct (nonempty_string docId), (nonempty_string title),
    (structured data), (nonempty_string userId); try done; intros _;
    (eexists _, _; split; [reflexivity|]; split;
       [ first [ apply (invalid_is_ValidationError "docId")
               | apply (invalid_is_ValidationError "title")
               | apply (invalid_is_ValidationError "data")
               | apply (invalid_is_ValidationError "userId") ]
       | done ]).
Qed.

Lemma getByUser_invalid h w userId :
  nonempty_string userId = false →
  getByUser h userId w = (Rejected (Error "Invalid userId provided"), w).
Proof.
  intros Hu. unfold getByUser. by rewrite string_guard, Hu.
Qed.

Lemma clearUserDocuments_invalid h w userId :
  nonempty_string userId = false →
  clearUserDocuments h userId w
  = (Rejected (Error "Invalid userId provided"), w).
Proof.
  intros Hu. unfold clearUserDocuments. by rewrite string_guard, Hu.
Qed.

Lemma getById_invalid h w id :
  string_or_nonzero id = false →
  getById h id w = (Rejected (Error "Invalid id provided"), w).
Proof.
  intros Hid. unfold getById. by rewrite id_guard_rejects.
Qed.

Lemma delete_invalid h w id :
  string_or_nonzero id = false →
  delete h id w = (Rejected (Error "Invalid id provided"), w).
Proof.
  intros Hid. unfold delete. by rewrite id_guard_rejects.
Qed.

(** C5 (as stated, refuted): 3/2 is neither a non-empty string nor an
    integer, so as an id it violates the precondition the specification
    gives [getById] and [delete]; yet neither is rejected: each opens the
    database and issues its request, and resolves. *)
Lemma fractional_id_reaches_database :
  string_or_integer (VNum (Fin (3 # 2))) = false
  ∧ (getById steady (VNum (Fin (3 # 2))) archive).1 = Resolved None
  ∧ issued (getById steady (VNum (Fin (3 # 2))) archive).2
    = [Open; Get (VNum (Fin (3 # 2)))]
  ∧ (delete steady (VNum (Fin (3 # 2))) archive).1 = Resolved tt
  ∧ issued (delete steady (VNum (Fin (3 # 2))) archive).2
    = [Open; Delete (VNum (Fin (3 # 2)))].
Proof. repeat split. Qed.

(** An infinite number is taken likewise. *)
Example infinite_id_reaches_database :
  string_or_integer (VNum (Infinity true)) = false
  ∧ (delete steady (VNum (Infinity true)) archive).1 = Resolved tt
  ∧ issued (delete steady (VNum (Infinity true)) archive).2
    = [Open; Delete (VNum (Infinity true))].
Proof. repeat split. Qed.

(** C5 (amended): an operation whose arguments violate its precondition is
    rejected with a validation error before anything is asked of the
    database: no request is issued, the clock is not read and the store is
    as it was.  The precondition of [save] is that [docId], [title] and
    [userId] are non-empty strings and [data] is a non-null object; that of
    [getByUser] and [clearUserDocuments], that [userId] is a non-empty
    string; that of [getById] and [delete], that [id] is a non-empty string
    or a number other than zero and NaN.  ([save] has written its entry
    line to the console by then; the other operations leave the world as it
    was.) *)
Theorem validation_precedes_io h w :
  (∀ docId title data userId,
     save_precondition docId title data userId = false →
     ∃ e w',
       save h docId title data userId w = (Rejected e, w')
       ∧ ValidationError e ∧ untouched w w')
  ∧ (∀ userId,
       nonempty_string userId = false →
       ∃ e,
         ValidationError e
         ∧ getByUser h userId w = (Rejected e, w)
         ∧ clearUserDocuments h userId w = (Rejected e, w))
  ∧ (∀ id,
       string_or_nonzero id = false →
       ∃ e,
         ValidationError e
         ∧ getById h id w = (Rejected e, w)
         ∧ delete h id w = (Rejected e, w)).
Proof.
  split; [|split].
  - intros. by apply save_invalid.
  - intros userId Hu. eexists. split; [apply (invalid_is_ValidationError "userId")|].
    split; [by apply getByUser_invalid | by apply clearUserDocuments_invalid].
  - intros id Hid. eexists. split; [apply (invalid_is_ValidationError "id")|].
    split; [by apply getById_invalid | by apply delete_invalid].
Qed.

Lemma validation_precedes_io_witness :
  (∃ e w',
     save steady (VStr "inv-001") (VStr "Invoice") VNull (VStr "u1") archive
     = (Rejected e, w')
     ∧ ValidationError e ∧ untouched archive w')
  ∧ (∃ e,
       ValidationError e
       ∧ getByUser steady (VStr EmptyString) archive = (Rejected e, archive)
       ∧ clearUserDocuments steady (VStr EmptyString) archive
         = (Rejected e, archive))
  ∧ (∃ e,
       ValidationError e
       ∧ getById steady (VBool true) archive = (Rejected e, archive)
       ∧ delete steady (VBool true) archive = (Rejected e, archive)).
Proof.
  destruct (validation_precedes_io steady archive) as (Hsave & Huser & Hid).
  split; [|split].
  - apply Hsave. reflexivity.
  - apply Huser. reflexivity.
  - apply Hid. reflexivity.
Defined.

Example save_invalid_data_logs_first :
  save steady (VStr "inv-001") (VStr "Invoice") VNull (VStr "u1") pristine
  = (Rejected (Error "Invalid data provided"),
     {| database := None; ticks := 0;
        console := [(Log, "DocumentDB.save called with:")]; issued := [] |}).
Proof. reflexivity. Qed.

(** ** Which ids are taken *)

Local Ltac not_validation :=
  let p := fresh "parameter" in
  let Hp := fresh "Hp" in
  intros [p Hp]; simpl in Hp; discriminate Hp.

Lemma getById_rejection_is_not_validation h w id e w' :
  string_or_nonzero id = true →
  getById h id w = (Rejected e, w') → ¬ ValidationError e.
Proof.
  intros Hid. unfold getById. rewrite (id_guard_passes id) by done.
  unfold_io. simpl. destruct (indexedDB h); simpl.
  - destruct (fault h Open); simpl.
    + intros [= <- _]. not_validation.
    + destruct (fault h (Get id)); simpl; [|done].
      intros [= <- _]. not_validation.
  - intros [= <- _]. not_validation.
Qed.

Lemma delete_rejection_is_not_validation h w id e w' :
  string_or_nonzero id = true →
  delete h id w = (Rejected e, w') → ¬ ValidationError e.
Proof.
  intros Hid. unfold delete. rewrite (id_guard_passes id) by done.
  unfold_io. simpl. destruct (indexedDB h); simpl.
  - destruct (fault h Open); simpl.
    + intros [= <- _]. not_validation.
    + destruct (fault h (Delete id)); simpl; [|done].
      intros [= <- _]. not_validation.
  - intros [= <- _]. not_validation.
Qed.

(** C7 (as stated, refuted): 0 is an integer, and both [getById] and
    [delete] reject it with a validation error. *)
Lemma zero_id_rejected :
  string_or_integer (of_Z 0) = true
  ∧ getById steady (of_Z 0) archive
    = (Rejected (Error "Invalid id provided"), archive)
  ∧ delete steady (of_Z 0) archive
    = (Rejected (Error "Invalid id provided"), archive)
  ∧ ValidationError (Error "Invalid id provided").
Proof. repeat split. by exists "id". Qed.

(** The other half of the claim fails too: a number that is not an integer
    is taken. *)
Example fractional_id_taken :
  string_or_integer (VNum (Fin (3 # 2))) = false
  ∧ (getById steady (VNum (Fin (3 # 2))) archive).1 = Resolved None.
Proof. by split. Qed.

(** C7 (amended): an id that is a non-empty string or a number other than
    zero and NaN is taken by [getById] and [delete]: whatever the host
    does, they are not rejected with a validation error, and on a healthy
    host they resolve; every other id is rejected with the validation
    error, the world unchanged. *)
Theorem id_validation h w id :
  (string_or_nonzero id = true →
     (∀ e w', getById h id w = (Rejected e, w') → ¬ ValidationError e)
     ∧ (∀ e w', delete h id w = (Rejected e, w') → ¬ ValidationError e)
     ∧ (healthy h →
        (∃ r w', getById h id w = (Resolved r, w'))
        ∧ (∃ w', delete h id w = (Resolved tt, w'))))
  ∧ (string_or_nonzero id = false →
     ValidationError (Error "Invalid id provided")
     ∧ getById h id w = (Rejected (Error "Invalid id provided"), w)
     ∧ delete h id w = (Rejected (Error "Invalid id provided"), w)).
Proof.
  split; intros Hid.
  - split; [|split].
    + intros e w'. by apply getById_rejection_is_not_validation.
    + intros e w'. by apply delete_rejection_is_not_validation.
    + intros Hh. split.
      * destruct (getById_runs h w id) as (w' & Hrun & _); [done..|].
        by eexists _, w'.
      * destruct (delete_runs h w id) as (w' & Hrun & _); [done..|].
        by exists w'.
  - split; [apply (invalid_is_ValidationError "id")|].
    split; [by apply getById_invalid | by apply delete_invalid].
Qed.

Lemma id_validation_witness :
  (getById flaky (of_Z 3) archive).1 = Rejected (Error "Get failed: quota")
  ∧ ¬ ValidationError (Error "Get failed: quota")
  ∧ (delete flaky (of_Z 3) archive).1 = Rejected (Error "Delete failed: quota")
  ∧ ¬ ValidationError (Error "Delete failed: quota")
  ∧ (∃ r w', getById steady (of_Z 3) archive = (Resolved r, w'))
  ∧ (∃ w', delete steady (of_Z 3) archive = (Resolved tt, w'))
  ∧ getById steady VNull archive
    = (Rejected (Error "Invalid id provided"), archive)
  ∧ delete steady VNull archive
    = (Rejected (Error "Invalid id provided"), archive).
Proof.
  destruct (proj1 (id_validation flaky archive (of_Z 3)))
    as (Hget & Hdelete & _); [reflexivity|].
  destruct (proj1 (id_validation steady archive (of_Z 3)))
    as (_ & _ & Hruns); [reflexivity|].
  destruct Hruns as [Hgot Hdeleted];
    [split; [reflexivity | intros; reflexivity]|].
  destruct (proj2 (id_validation steady archive VNull))
    as (_ & Hget_null & Hdelete_null); [reflexivity|].
  split; [reflexivity|]. split; [exact (Hget _ _ eq_refl)|].
  split; [reflexivity|]. split; [exact (Hdelete _ _ eq_refl)|].
  split; [exact Hgot|]. split; [exact Hdeleted|].
  split; [exact Hget_null | exact Hdelete_null].
Defined.

(** ** Absent records *)

Lemma find_absent key rs :
  Forall (λ r, key_is key (id r) = false) rs →
  List.find (λ r, key_is key (id r)) rs = None.
Proof.
  induction 1 as [|r rs Hr _ IH]; cbn [List.find]; [done|].
  by rewrite Hr.
Qed.

Lemma filter_absent key rs :
  Forall (λ r, key_is key (id r) = false) rs →
  List.filter (λ r, negb (key_is key (id r))) rs = rs.
Proof.
  induction 1 as [|r rs Hr _ IH]; cbn [List.filter]; [done|].
  by rewrite Hr, IH.
Qed.

Lemma store_delete_absent key s :
  Forall (λ r, key_is key (id r) = false) (records s) →
  store_delete key s = s.
Proof.
  intros Habsent. unfold store_delete. rewrite filter_absent by done.
  by destruct s.
Qed.

Lemma absent_after_delete key s :
  Forall (λ r, key_is key (id r) = false) (records (store_delete key s)).
Proof.
  apply List.Forall_forall. intros r [_ Hr]%filter_In.
  by apply negb_true_iff.
Qed.





(** The scenario of the specification. *)
Example getById_doesnotexist :
  (getById steady (VStr "doesnotexist") archive).1 = Resolved None.
Proof. reflexivity. Qed.

(** ** [clearUserDocuments] *)

Lemma getByUser_serves h w u :
  indexedDB h = true → fault h Open = None →
  fault h (GetAll (trim u)) = None → u ≠ EmptyString →
  ∃ w',
    getByUser h (VStr u) w
    = (Resolved
         (sort (λ a b, timestamp (fields b) - timestamp (fields a))%Z
            (owned (trim u) w)), w')
    ∧ documents w' = documents w.
Proof.
  intros Hidb Hopen Hall Hu. unfold getByUser. unfold_io. simpl.
  rewrite (nonempty_truthy u) by done.
  repeat (progress (unfold_io; simpl; rewrite ?Hidb, ?Hopen, ?Hall)).
  eexists. split; reflexivity.
Qed.

Lemma getByUser_resolved h w userId docs w1 :
  getByUser h userId w = (Resolved docs, w1) →
  ∃ u,
    userId = VStr u ∧ u ≠ EmptyString
    ∧ indexedDB h = true ∧ fault h Open = None
    ∧ fault h (GetAll (trim u)) = None
    ∧ docs = sort (λ a b, timestamp (fields b) - timestamp (fields a))%Z
               (owned (trim u) w)
    ∧ documents w1 = documents w.
Proof.
  unfold getByUser. rewrite string_guard.
  destruct userId as [| |b|n|u|items|props]; simpl; try done.
  destruct u as [|c u]; simpl; [done|].
  unfold_io. simpl. destruct (indexedDB h) eqn:Hidb; simpl; [|done].
  destruct (fault h Open) eqn:Hopen; simpl; [done|].
  destruct (fault h (GetAll _)) eqn:Hall; simpl; [done|].
  intros [= <- <-]. by exists (String c u).
Qed.

Lemma delete_resolved h w id w' :
  delete h id w = (Resolved tt, w') →
  documents w' = store_delete id (documents w).
Proof.
  unfold delete. unfold_io.
  destruct (negb (truthy id) || _); simpl; [done|].
  destruct (indexedDB h); simpl; [|done].
  destruct (fault h Open); simpl; [done|].
  destruct (fault h (Delete id)); simpl; [done|].
  by intros [= <-].
Qed.

(** The store after the deletes of [clearUserDocuments]. *)
Lemma Promise_all_deletes_resolved h docs : ∀ w l w',
  Promise_all ((λ doc, delete h (of_Z (id doc))) <$> docs) w
  = (Resolved l, w') →
  documents w'
  = foldl (λ s doc, store_delete (of_Z (id doc)) s) (documents w) docs.
Proof.
  induction docs as [|doc docs IH]; intros w l w'; csimpl.
  - by intros [= _ <-].
  - destruct (delete h (of_Z (id doc)) w) as [[[]|e] w1] eqn:Hdoc;
      destruct (Promise_all _ w1) as [[l'|e'] w2] eqn:Hrest; try done.
    intros [= _ <-]. rewrite (IH _ _ _ Hrest).
    by rewrite (delete_resolved _ _ _ _ Hdoc).
Qed.

Lemma Promise_all_deletes_run h docs : ∀ w,
  healthy h → Forall (λ doc, (1 ≤ id doc)%Z) docs →
  ∃ l w',
    Promise_all ((λ doc, delete h (of_Z (id doc))) <$> docs) w
    = (Resolved l, w').
Proof.
  intros w Hh Hdocs. revert w.
  induction Hdocs as [|doc docs Hdoc _ IH]; intros w; csimpl.
  - by eexists _, _.
  - destruct (delete_runs h w (of_Z (id doc))) as (w1 & -> & _);
      [done|by apply generated_key_accepted|].
    destruct (IH w1) as (l & w2 & ->). by eexists _, _.
Qed.

Lemma records_after_deletes docs : ∀ s r,
  In r (records (foldl (λ s doc, store_delete (of_Z (id doc)) s) s docs)) →
  In r (records s) ∧ Forall (λ doc, id doc ≠ id r) docs.
Proof.
  induction docs as [|doc docs IH]; intros s r; cbn [foldl].
  - by split.
  - intros [Hr Hdocs]%IH. unfold store_delete in Hr. cbn [records] in Hr.
    apply filter_In in Hr as [Hr Hkey]. split; [done|].
    constructor; [|done].
    rewrite key_is_of_Z in Hkey. apply negb_true_iff in Hkey.
    by apply Z.eqb_neq.
Qed.

Lemma owned_after_deletes user docs w w' :
  documents w'
  = foldl (λ s doc, store_delete (of_Z (id doc)) s) (documents w) docs →
  docs ≡ₚ owned user w →
  owned user w' = [].
Proof.
  intros Hdocs Hperm. unfold owned at 1.
  destruct (List.filter _ _) as [|r rest] eqn:Hfilter; [done|].
  assert (In r (List.filter
                  (λ r, String.eqb (userId (fields r)) user)
                  (records (documents w')))) as Hr
    by (rewrite Hfilter; by left).
  apply filter_In in Hr as [Hr Huser]. rewrite Hdocs in Hr.
  apply records_after_deletes in Hr as [Hr Hfresh].
  assert (In r docs) as Hin.
  { apply (Permutation_in r (symmetry Hperm)).
    apply filter_In. by split. }
  rewrite List.Forall_forall in Hfresh. by destruct (Hfresh r Hin).
Qed.

Lemma clearUserDocuments_resolved h w userId n w' :
  clearUserDocuments h userId w = (Resolved n, w') →
  ∃ u docs,
    userId = VStr u ∧ u ≠ EmptyString
    ∧ indexedDB h = true ∧ fault h Open = None
    ∧ fault h (GetAll (trim u)) = None
    ∧ docs = sort (λ a b, timestamp (fields b) - timestamp (fields a))%Z
               (owned (trim u) w)
    ∧ n = length docs
    ∧ documents w'
      = foldl (λ s doc, store_delete (of_Z (id doc)) s) (documents w) docs.
Proof.
  unfold clearUserDocuments. rewrite string_guard.
  destruct (nonempty_string userId); simpl; [|done].
  unfold mbind at 1, io_bind at 1, when_, mret at 1, io_ret at 1, try_catch.
  unfold mbind at 1, io_bind at 1.
  destruct (getByUser h userId w) as [[docs|e] w1] eqn:Hget; [|done].
  unfold mbind at 1, io_bind at 1.
  destruct (Promise_all _ w1) as [[l|e] w2] eqn:Hall; [|done].
  unfold_io. intros [= <- <-].
  apply getByUser_resolved in Hget
    as (u & -> & Hu & Hidb & Hopen & Hgetall & Hdocs & Hw1).
  apply Promise_all_deletes_resolved in Hall. rewrite Hw1 in Hall.
  by exists u, docs.
Qed.

(** C6: on a healthy host [clearUserDocuments] resolves with the number of
    the user's records at the time of its read; and whenever it resolves,
    which takes the read and every single delete to succeed, the number is
    that count and a [getByUser] that follows resolves with the empty
    sequence. *)
Theorem clearUserDocuments_count_then_empty h w userId :
  (healthy h → wf w → nonempty_string userId = true →
   ∃ w',
     clearUserDocuments h userId w
     = (Resolved (length (owned (trim (as_string userId)) w)), w'))
  ∧ (∀ n w',
       clearUserDocuments h userId w = (Resolved n, w') →
       n = length (owned (trim (as_string userId)) w)
       ∧ ∃ w'', getByUser h userId w' = (Resolved [], w'')).
Proof.
  split.
  - intros Hh Hwf Hu.
    destruct userId as [| |b|n|u|items|props]; try done. simpl in Hu.
    assert (u ≠ EmptyString) as Hne by (by intros ->).
    destruct (getByUser_runs h w u) as (w1 & Hget & Hw1); [done..|].
    set (docs := sort _ _) in Hget.
    assert (docs ≡ₚ owned (trim u) w) as Hperm by apply sort_Permutation.
    destruct (Promise_all_deletes_run h docs w1) as (l & w2 & Hall); [done| |].
    { eapply Permutation_Forall; [symmetry; exact Hperm|].
      apply List.Forall_forall. intros r [Hr _]%filter_In.
      destruct Hwf as [_ Hkeys]. rewrite List.Forall_forall in Hkeys.
      by destruct (Hkeys r Hr). }
    unfold clearUserDocuments. rewrite string_guard. simpl. rewrite Hu. simpl.
    unfold mbind at 1, io_bind at 1, when_, mret at 1, io_ret at 1, try_catch.
    unfold mbind at 1, io_bind at 1. rewrite Hget.
    unfold mbind at 1, io_bind at 1. rewrite Hall.
    unfold_io. rewrite <- (Permutation_length Hperm). by eexists.
  - intros n w' Hclear.
    apply clearUserDocuments_resolved in Hclear
      as (u & docs & -> & Hu & Hidb & Hopen & Hgetall & Hdocs & -> & Hw').
    assert (docs ≡ₚ owned (trim u) w) as Hperm
      by (rewrite Hdocs; apply sort_Permutation).
    simpl. split; [by apply Permutation_length|].
    destruct (getByUser_serves h w' u) as (w'' & Hget & _); [done..|].
    exists w''. rewrite Hget.
    by rewrite (owned_after_deletes (trim u) docs w w').
Qed.

Lemma clearUserDocuments_count_then_empty_witness :
  ∃ w',
    clearUserDocuments steady (VStr "u1") archive = (Resolved 2, w')
    ∧ 2 = length (owned (trim "u1") archive)
    ∧ ∃ w'', getByUser steady (VStr "u1") w' = (Resolved [], w'').
Proof.
  destruct (clearUserDocuments_count_then_empty steady archive (VStr "u1"))
    as [Hruns Hafter].
  destruct Hruns as [w' Hclear];
    [ split; [reflexivity | intros; reflexivity]
    | split; [vm_compute; discriminate
             | repeat constructor; vm_compute; discriminate]
    | reflexivity | ].
  exists w'. split; [exact Hclear|]. exact (Hafter _ _ Hclear).
Defined.

Example clear_then_list :
  (n ← clearUserDocuments steady (VStr "u1");
   mine ← getByUser steady (VStr "u1");
   others ← getByUser steady (VStr "u2");
   mret (n, mine, others)) archive
  = ((clearUserDocuments steady (VStr "u1") ;;
      getByUser steady (VStr "u1") ;;
      getByUser steady (VStr "u2") ;;
      mret (2, [], [note 2 "u2" 7])) archive).
Proof. vm_compute. reflexivity. Qed.

(** ** The invariant is kept

    Whatever the host does, every operation takes a world that satisfies
    [wf] to one that does; a fresh profile satisfies it. *)

Lemma save_keeps_wf h w docId title data userId :
  wf w → wf (save h docId title data userId w).2.
Proof.
  intros Hwf. unfold save. rewrite !string_guard, object_guard.
  destruct (nonempty_string docId), (nonempty_string title),
    (structured data), (nonempty_string userId); try done.
  unfold_io. simpl. destruct (indexedDB h); simpl; [|done].
  destruct (fault h Open); simpl; [done|].
  destruct (fault h (Add _)); simpl; [done|].
  by apply wf_store_add.
Qed.

Lemma getByUser_keeps_wf h w userId : wf w → wf (getByUser h userId w).2.
Proof.
  intros Hwf. unfold getByUser. rewrite string_guard.
  destruct (nonempty_string userId); [|done].
  unfold_io. simpl. destruct (indexedDB h); simpl; [|done].
  destruct (fault h Open); simpl; [done|].
  by destruct (fault h (GetAll _)).
Qed.

Lemma getById_keeps_wf h w id : wf w → wf (getById h id w).2.
Proof.
  intros Hwf. unfold getById. destruct (negb (truthy id) || _); [done|].
  unfold_io. simpl. destruct (indexedDB h); simpl; [|done].
  destruct (fault h Open); simpl; [done|].
  by destruct (fault h (Get id)).
Qed.

Lemma delete_keeps_wf h w id : wf w → wf (delete h id w).2.
Proof.
  intros Hwf. unfold delete. destruct (negb (truthy id) || _); [done|].
  unfold_io. simpl. destruct (indexedDB h); simpl; [|done].
  destruct (fault h Open); simpl; [done|].
  destruct (fault h (Delete id)); simpl; [done|].
  by apply wf_store_delete.
Qed.

Lemma Promise_all_deletes_keep_wf h docs : ∀ w,
  wf w → wf (Promise_all ((λ doc, delete h (of_Z (id doc))) <$> docs) w).2.
Proof.
  induction docs as [|doc docs IH]; intros w Hwf; csimpl; [done|].
  pose proof (delete_keeps_wf h w (of_Z (id doc)) Hwf) as Hdoc.
  destruct (delete h (of_Z (id doc)) w) as [first w1]. simpl in Hdoc.
  pose proof (IH w1 Hdoc) as Hrest.
  by destruct (Promise_all _ w1) as [others w2].
Qed.

Lemma clearUserDocuments_keeps_wf h w userId :
  wf w → wf (clearUserDocuments h userId w).2.
Proof.
  intros Hwf. unfold clearUserDocuments. rewrite string_guard.
  destruct (nonempty_string userId); [|done]. simpl.
  unfold mbind at 1, io_bind at 1, when_, mret at 1, io_ret at 1, try_catch.
  unfold mbind at 1, io_bind at 1.
  pose proof (getByUser_keeps_wf h w userId Hwf) as Hget.
  destruct (getByUser h userId w) as [[docs|e] w1]; [|done].
  unfold mbind at 1, io_bind at 1.
  pose proof (Promise_all_deletes_keep_wf h docs w1 Hget) as Hall.
  by destruct (Promise_all _ w1) as [[l|e] w2].
Qed.

(** * Further properties of the code *)

(** ** What [escape] and [sanitizeData] guarantee on every input *)

Lemma raw_free_escape s : raw_free (escape s) = true.
Proof.
  unfold raw_free. apply forallb_forall. intros c Hc.
  apply negb_true_iff, escape_clean. by apply list_elem_of_In.
Qed.

Lemma raw_free_occurs s c : raw_free s = true → c ∈ targets → occurs c s = false.
Proof.
  unfold raw_free. rewrite forallb_forall. intros Hs Hc.
  apply negb_true_iff, Hs. by apply list_elem_of_In.
Qed.

Lemma escape_raw_free s : raw_free s = true → escape s = s.
Proof.
  intros Hs. unfold escape.
  rewrite (replace_all_absent "<")
    by (apply raw_free_occurs; [done|unfold targets; repeat constructor]).
  rewrite (replace_all_absent ">")
    by (apply raw_free_occurs; [done|unfold targets; repeat constructor]).
  rewrite (replace_all_absent quote)
    by (apply raw_free_occurs; [done|unfold targets; repeat constructor]).
  rewrite (replace_all_absent "'")
    by (apply raw_free_occurs; [done|unfold targets; repeat constructor]).
  by rewrite (replace_all_absent "/")
    by (apply raw_free_occurs; [done|unfold targets; repeat constructor]).
Qed.

(** X1: [escape] changes a string exactly when one of the five characters
    occurs in it. *)
Theorem escape_fixes_exactly_raw_free s :
  escape s = s ↔ raw_free s = true.
Proof.
  split.
  - intros Hs. rewrite <- Hs. apply raw_free_escape.
  - apply escape_raw_free.
Qed.

(** X2: escaping cannot be undone: a string that holds one of the five
    characters shares its escaped form with a different string (its own
    escaped form), because [&] itself is not escaped. *)
Theorem escape_collides s :
  raw_free s = false → ∃ s', s' ≠ s ∧ escape s' = escape s.
Proof.
  intros Hs. exists (escape s). split; [|apply escape_idempotent].
  intros Heq. rewrite <- Heq, raw_free_escape in Hs. discriminate.
Qed.

Lemma escape_fixes_exactly_raw_free_witness : escape "total 3" = "total 3".
Proof. apply escape_fixes_exactly_raw_free. reflexivity. Defined.

Lemma escape_collides_witness :
  ∃ s', s' ≠ "a/b" ∧ escape s' = escape "a/b".
Proof. apply escape_collides. reflexivity. Defined.

Lemma forallb_own_entries (P : string * value → bool) l :
  forallb P l = true → forallb P (own_entries l) = true.
Proof.
  induction l as [|[k x] l IH]; [done|].
  cbn [forallb]. intros [Hx Hl]%andb_prop. rewrite own_entries_cons.
  destruct (String.eqb k "__proto__"); [by apply IH|].
  cbn [forallb]. apply andb_true_intro. split; [exact Hx | by apply IH].
Qed.

Lemma keyed_strings_escaped_sanitized v :
  keyed_strings_escaped false (sanitizeData v) = true
  ∧ keyed_strings_escaped true (sanitizeProperty sanitizeData v) = true
  ∧ keyed_strings_escaped false (sanitizeItem sanitizeData v) = true.
Proof.
  induction v as [| |b|n|s|items IH|props IH] using value_ind;
    try (repeat split; reflexivity).
  - split; [done|]. split; [apply raw_free_escape|done].
  - assert (keyed_strings_escaped false (sanitizeData (VArr items)) = true)
      as Harr.
    { rewrite sanitizeData_array. simpl.
      generalize (index_key <$> seq 0 (length items)).
      induction IH as [|x items (_ & Hx & _) _ IHitems]; intros [|k ks];
        csimpl; try done.
      apply andb_true_intro. split; [exact Hx | apply IHitems]. }
    split; [done|]. split; [|done]. clear Harr. simpl.
    induction IH as [|x items (_ & _ & Hx) _ IHitems]; csimpl; [done|].
    apply andb_true_intro. split; [exact Hx | exact IHitems].
  - assert (keyed_strings_escaped false (sanitizeData (VObj props)) = true)
      as Hobj.
    { rewrite sanitizeData_object. cbn [keyed_strings_escaped].
      apply forallb_own_entries.
      induction IH as [|[k x] props (_ & Hx & _) _ IHprops]; csimpl;
        [done|].
      apply andb_true_intro. split; [exact Hx | exact IHprops]. }
    done.
Qed.

(** X3: whatever the input, in the result of [sanitizeData] no string held
    under a mapping key, at any depth, contains one of the five raw
    characters. *)
Theorem sanitizeData_keyed_strings_escaped v :
  keyed_strings_escaped false (sanitizeData v) = true.
Proof. apply keyed_strings_escaped_sanitized. Qed.

Lemma index_keys_own n m :
  List.filter (λ k, negb (String.eqb k "__proto__")) (index_key <$> seq n m)
  = index_key <$> seq n m.
Proof.
  revert n. induction m as [|m IH]; intros n; [done|].
  cbn [seq fmap list_fmap List.filter]. rewrite index_key_plain. cbn [negb].
  f_equal. apply IH.
Qed.

(** X4: [sanitizeData] keeps the keys of its input and their order, except
    a key named [__proto__], which it drops with its value: the result has
    the other keys of a mapping, and for a sequence the indices of its
    elements. *)
Theorem sanitizeData_keeps_keys v :
  (entries (sanitizeData v)).*1
  = List.filter (λ k, negb (String.eqb k "__proto__")) (entries v).*1.
Proof.
  destruct v as [| |b|n|s|items|props]; try done.
  - rewrite sanitizeData_array. cbn [entries].
    rewrite !fst_zip by (by rewrite ?length_fmap, length_seq).
    by rewrite index_keys_own.
  - rewrite sanitizeData_object. cbn [entries].
    induction props as [|[k x] props IH]; [done|].
    cbn [fmap list_fmap fst snd List.filter]. rewrite own_entries_cons.
    destruct (String.eqb k "__proto__"); cbn [negb]; [exact IH|].
    cbn [fmap list_fmap fst]. f_equal. exact IH.
Qed.

Example sanitizeData_array_keys :
  (entries (sanitizeData (VArr [VStr "a"; VNull; VArr []]))).*1
  = ["0"; "1"; "2"].
Proof. reflexivity. Qed.

Example sanitizeData_proto_key_dropped :
  (entries (sanitizeData
              (VObj [("a", VNull); ("__proto__", VNull); ("b", VNull)]))).*1
  = ["a"; "b"].
Proof. reflexivity. Qed.

(** ** What each operation does to the store, on any host *)

Lemma save_effect h w docId title data userId :
  match save h docId title data userId w with
  | (Resolved k, w') =>
      k = keygen (documents w)
      ∧ documents w'
        = (store_add (built h w docId title data userId) (documents w)).2
  | (Rejected _, w') => documents w' = documents w
  end.
Proof.
  unfold save. rewrite !string_guard, object_guard.
  destruct (nonempty_string docId), (nonempty_string title),
    (structured data), (nonempty_string userId); try done.
  unfold_io. simpl. destruct (indexedDB h); simpl; [|done].
  destruct (fault h Open); simpl; [done|].
  by destruct (fault h (Add _)).
Qed.

Lemma delete_effect h w id :
  match delete h id w with
  | (Resolved _, w') => documents w' = store_delete id (documents w)
  | (Rejected _, w') => documents w' = documents w
  end.
Proof.
  unfold delete. destruct (negb (truthy id) || _); [done|].
  unfold_io. simpl. destruct (indexedDB h); simpl; [|done].
  destruct (fault h Open); simpl; [done|].
  by destruct (fault h (Delete id)).
Qed.

Lemma getByUser_effect h w userId :
  documents (getByUser h userId w).2 = documents w.
Proof.
  unfold getByUser. rewrite string_guard.
  destruct (nonempty_string userId); [|done].
  unfold_io. simpl. destruct (indexedDB h); simpl; [|done].
  destruct (fault h Open); simpl; [done|].
  by destruct (fault h (GetAll _)).
Qed.

Lemma getById_effect h w id :
  documents (getById h id w).2 = documents w.
Proof.
  unfold getById. destruct (negb (truthy id) || _); [done|].
  unfold_io. simpl. destruct (indexedDB h); simpl; [|done].
  destruct (fault h Open); simpl; [done|].
  by destruct (fault h (Get id)).
Qed.

Lemma getById_resolved h w id result w' :
  getById h id w = (Resolved result, w') →
  result = store_get id (documents w).
Proof.
  unfold getById. destruct (negb (truthy id) || _); [done|].
  unfold_io. simpl. destruct (indexedDB h); simpl; [|done].
  destruct (fault h Open); simpl; [done|].
  destruct (fault h (Get id)); simpl; [done|].
  by intros [= <- _].
Qed.

(** X5: [save] is all or nothing, whatever the host does: when it resolves,
    the result is the key the generator held, exactly one record (the built
    document under that key) has been appended and the generator has moved
    on by one; when it is rejected, the store is as it was. *)
Theorem save_all_or_nothing h w docId title data userId :
  (∀ k w',
     save h docId title data userId w = (Resolved k, w') →
     k = keygen (documents w)
     ∧ records (documents w')
       = (records (documents w)
          ++ [{| id := k; fields := built h w docId title data userId |}])%list
     ∧ keygen (documents w') = (k + 1)%Z)
  ∧ (∀ e w',
       save h docId title data userId w = (Rejected e, w') →
       documents w' = documents w).
Proof.
  pose proof (save_effect h w docId title data userId) as Heffect.
  split.
  - intros k w' Hsave. rewrite Hsave in Heffect.
    destruct Heffect as [-> ->]. done.
  - intros e w' Hsave. by rewrite Hsave in Heffect.
Qed.

Lemma save_all_or_nothing_witness :
  (∃ w',
     save steady (VStr "d") (VStr "t") invoice (VStr "u1") archive
     = (Resolved 4%Z, w')
     ∧ records (documents w')
       = (records (documents archive)
          ++ [{| id := 4;
                 fields :=
                   built steady archive (VStr "d") (VStr "t") invoice
                     (VStr "u1") |}])%list
     ∧ keygen (documents w') = 5%Z)
  ∧ (∃ e w',
       save locked (VStr "d") (VStr "t") invoice (VStr "u1") archive
       = (Rejected e, w')
       ∧ documents w' = documents archive).
Proof.
  destruct (save_all_or_nothing steady archive (VStr "d") (VStr "t") invoice
              (VStr "u1")) as [Hdone _].
  destruct (save_all_or_nothing locked archive (VStr "d") (VStr "t") invoice
              (VStr "u1")) as [_ Hfailed].
  split.
  - assert (save steady (VStr "d") (VStr "t") invoice (VStr "u1") archive
            = (Resolved 4%Z,
               (save steady (VStr "d") (VStr "t") invoice (VStr "u1")
                  archive).2)) as Hsave
      by (vm_compute; reflexivity).
    eexists. split; [exact Hsave|].
    destruct (Hdone _ _ Hsave) as (_ & Hrecords & Hkeygen).
    split; [exact Hrecords | exact Hkeygen].
  - assert (save locked (VStr "d") (VStr "t") invoice (VStr "u1") archive
            = (Rejected (Error "Database error: Unknown error"),
               (save locked (VStr "d") (VStr "t") invoice (VStr "u1")
                  archive).2)) as Hsave
      by (vm_compute; reflexivity).
    eexists _, _. split; [exact Hsave|]. exact (Hfailed _ _ Hsave).
Defined.

(** X6: [delete] is all or nothing, whatever the host does: when it
    resolves, exactly the records with the given key are gone (the others
    keep their order, the key generator is untouched) and no record with
    that key is left; when it is rejected, the store is as it was. *)
Theorem delete_all_or_nothing h w key :
  (∀ w',
     delete h key w = (Resolved tt, w') →
     records (documents w')
     = List.filter (λ r, negb (key_is key (id r))) (records (documents w))
     ∧ keygen (documents w') = keygen (documents w)
     ∧ absent key w')
  ∧ (∀ e w', delete h key w = (Rejected e, w') → documents w' = documents w).
Proof.
  pose proof (delete_effect h w key) as Heffect.
  split.
  - intros w' Hdelete. rewrite Hdelete in Heffect.
    unfold absent. rewrite Heffect. split; [done|]. split; [done|].
    apply absent_after_delete.
  - intros e w' Hdelete. by rewrite Hdelete in Heffect.
Qed.

Lemma delete_all_or_nothing_witness :
  (∃ w',
     delete steady (of_Z 2) archive = (Resolved tt, w')
     ∧ records (documents w') = [note 1 "u1" 5; note 3 "u1" 9]
     ∧ keygen (documents w') = 4%Z
     ∧ absent (of_Z 2) w')
  ∧ (∃ e w',
       delete flaky (of_Z 2) archive = (Rejected e, w')
       ∧ documents w' = documents archive).
Proof.
  destruct (delete_all_or_nothing steady archive (of_Z 2)) as [Hdone _].
  destruct (delete_all_or_nothing flaky archive (of_Z 2)) as [_ Hfailed].
  split.
  - assert (delete steady (of_Z 2) archive
            = (Resolved tt, (delete steady (of_Z 2) archive).2)) as Hdelete
      by (vm_compute; reflexivity).
    eexists. split; [exact Hdelete|].
    destruct (Hdone _ Hdelete) as (Hrecords & Hkeygen & Habsent).
    split; [exact Hrecords|]. split; [exact Hkeygen | exact Habsent].
  - assert (delete flaky (of_Z 2) archive
            = (Rejected (Error "Delete failed: quota"),
               (delete flaky (of_Z 2) archive).2)) as Hdelete
      by (vm_compute; reflexivity).
    eexists _, _. split; [exact Hdelete|]. exact (Hfailed _ _ Hdelete).
Defined.

(** X7: the two reading operations never change the store: whatever the
    host does and whatever the argument is, the records and the key
    generator after [getByUser] and after [getById] are those before. *)
Theorem reads_leave_the_store h w argument :
  documents (getByUser h argument w).2 = documents w
  ∧ documents (getById h argument w).2 = documents w.
Proof. split; [apply getByUser_effect | apply getById_effect]. Qed.

(** ** Keys in ascending order *)

Lemma StronglySorted_filter {A} (R : A → A → Prop) (f : A → bool) l :
  StronglySorted R l → StronglySorted R (List.filter f l).
Proof.
  induction 1 as [|x l _ IH Hx]; simpl; [constructor|].
  destruct (f x); [|done]. constructor; [done|].
  apply List.Forall_forall. intros y [Hy _]%filter_In.
  rewrite List.Forall_forall in Hx. by apply Hx.
Qed.

Lemma StronglySorted_snoc {A} (R : A → A → Prop) l x :
  StronglySorted R l → Forall (λ y, R y x) l → StronglySorted R (l ++ [x]).
Proof.
  induction 1 as [|y l _ IH Hy]; intros Hx; simpl.
  - repeat constructor.
  - inversion Hx as [|? ? Hyx Hx']; subst. constructor; [by apply IH|].
    apply Forall_app. split; [done|]. by constructor.
Qed.

Lemma keys_ascending_add d s :
  wf_store s →
  StronglySorted (λ a b, (id a < id b)%Z) (records s) →
  StronglySorted (λ a b, (id a < id b)%Z) (records (store_add d s).2).
Proof.
  intros [_ Hkeys] Hsorted. simpl. apply StronglySorted_snoc; [done|].
  eapply List.Forall_impl; [|exact Hkeys]. simpl. intros r Hr. lia.
Qed.

Lemma keys_ascending_delete key s :
  StronglySorted (λ a b, (id a < id b)%Z) (records s) →
  StronglySorted (λ a b, (id a < id b)%Z) (records (store_delete key s)).
Proof. apply StronglySorted_filter. Qed.

Lemma find_own_key l r :
  StronglySorted (λ a b, (id a < id b)%Z) l → In r l →
  List.find (λ x, key_is (of_Z (id r)) (id x)) l = Some r.
Proof.
  induction 1 as [|x l _ IH Hx]; intros Hr; [done|].
  cbn [List.find]. rewrite key_is_of_Z.
  destruct Hr as [->|Hr]; [by rewrite Z.eqb_refl|].
  rewrite List.Forall_forall in Hx. specialize (Hx r Hr).
  destruct (Z.eqb_spec (id r) (id x)); [lia|]. by apply IH.
Qed.

(** X8: [getById] returns exactly the record stored under the key.  On any
    host, a record it resolves with is a record of the store whose key is
    the one asked for; and on a healthy host every stored record is found
    under its own [id]. *)
Theorem getById_exact h w :
  (∀ key r w',
     getById h key w = (Resolved (Some r), w') →
     In r (records (documents w)) ∧ key_is key (id r) = true)
  ∧ (healthy h → wf w → keys_ascending w →
     ∀ r, In r (records (documents w)) →
          ∃ w', getById h (of_Z (id r)) w = (Resolved (Some r), w')).
Proof.
  split.
  - intros key r w' Hget. apply getById_resolved in Hget.
    symmetry in Hget. unfold store_get in Hget.
    apply find_some in Hget. done.
  - intros Hh [_ Hkeys] Hsorted r Hr.
    destruct (getById_runs h w (of_Z (id r))) as (w' & Hrun & _); [done| |].
    { apply generated_key_accepted.
      rewrite List.Forall_forall in Hkeys. by destruct (Hkeys r Hr). }
    exists w'. rewrite Hrun. unfold store_get. by rewrite find_own_key.
Qed.

Lemma getById_exact_witness :
  (∃ w', getById steady (of_Z 3) archive = (Resolved (Some (note 3 "u1" 9)), w'))
  ∧ In (note 3 "u1" 9) (records (documents archive))
  ∧ key_is (of_Z 3) (id (note 3 "u1" 9)) = true.
Proof.
  destruct (getById_exact steady archive) as [Hsound Hcomplete].
  destruct (Hcomplete) with (r := note 3 "u1" 9) as [w' Hget];
    [ split; [reflexivity | intros; reflexivity]
    | split; [vm_compute; discriminate
             | repeat constructor; vm_compute; discriminate]
    | unfold keys_ascending; repeat constructor
    | right; right; left; reflexivity | ].
  split; [by exists w'|]. exact (Hsound _ _ _ Hget).
Defined.

Lemma save_keeps_ascending h w docId title data userId :
  wf w → keys_ascending w →
  keys_ascending (save h docId title data userId w).2.
Proof.
  intros Hwf Hsorted. unfold keys_ascending.
  pose proof (save_effect h w docId title data userId) as Heffect.
  destruct (save h docId title data userId w) as [[k|e] w']; simpl.
  - destruct Heffect as [_ ->]. by apply keys_ascending_add.
  - by rewrite Heffect.
Qed.

Lemma delete_keeps_ascending h w key :
  keys_ascending w → keys_ascending (delete h key w).2.
Proof.
  intros Hsorted. unfold keys_ascending.
  pose proof (delete_effect h w key) as Heffect.
  destruct (delete h key w) as [[[]|e] w']; simpl; rewrite Heffect; [|done].
  by apply keys_ascending_delete.
Qed.

Lemma Promise_all_deletes_keep_ascending h docs : ∀ w,
  keys_ascending w →
  keys_ascending
    (Promise_all ((λ doc, delete h (of_Z (id doc))) <$> docs) w).2.
Proof.
  induction docs as [|doc docs IH]; intros w Hsorted; csimpl; [done|].
  pose proof (delete_keeps_ascending h w (of_Z (id doc)) Hsorted) as Hdoc.
  destruct (delete h (of_Z (id doc)) w) as [first w1]. simpl in Hdoc.
  pose proof (IH w1 Hdoc) as Hrest.
  by destruct (Promise_all _ w1) as [others w2].
Qed.

Lemma clearUserDocuments_keeps_ascending h w userId :
  keys_ascending w → keys_ascending (clearUserDocuments h userId w).2.
Proof.
  intros Hsorted. unfold clearUserDocuments. rewrite string_guard.
  destruct (nonempty_string userId); [|done]. simpl.
  unfold mbind at 1, io_bind at 1, when_, mret at 1, io_ret at 1, try_catch.
  unfold mbind at 1, io_bind at 1.
  assert (keys_ascending (getByUser h userId w).2) as Hget
    by (unfold keys_ascending; by rewrite getByUser_effect).
  destruct (getByUser h userId w) as [[docs|e] w1]; [|done].
  unfold mbind at 1, io_bind at 1.
  pose proof (Promise_all_deletes_keep_ascending h docs w1 Hget) as Hall.
  by destruct (Promise_all _ w1) as [[l|e] w2].
Qed.

Lemma ascending_keys_distinct l :
  StronglySorted (λ a b, (id a < id b)%Z) l → NoDup (id <$> l).
Proof.
  induction 1 as [|x l _ IH Hx]; csimpl; constructor; [|done].
  intros Hin. apply list_elem_of_fmap in Hin as (y & Hy & Hin).
  rewrite List.Forall_forall in Hx.
  apply list_elem_of_In in Hin. specialize (Hx y Hin). lia.
Qed.

(** X9: the store never holds two records with the same [id]: in a store
    whose keys are in strictly ascending order (as in a fresh profile) all
    ids are distinct, and every operation, whatever the host does, leaves
    the keys in strictly ascending order. *)
Theorem keys_stay_ascending h w :
  wf w → keys_ascending w →
  NoDup (id <$> records (documents w))
  ∧ (∀ docId title data userId,
       keys_ascending (save h docId title data userId w).2)
  ∧ (∀ userId, keys_ascending (getByUser h userId w).2)
  ∧ (∀ key, keys_ascending (getById h key w).2)
  ∧ (∀ key, keys_ascending (delete h key w).2)
  ∧ (∀ userId, keys_ascending (clearUserDocuments h userId w).2).
Proof.
  intros Hwf Hsorted. split; [by apply ascending_keys_distinct|].
  split; [intros; by apply save_keeps_ascending|].
  split; [intros; unfold keys_ascending; by rewrite getByUser_effect|].
  split; [intros; unfold keys_ascending; by rewrite getById_effect|].
  split; [intros; by apply delete_keeps_ascending|].
  intros; by apply clearUserDocuments_keeps_ascending.
Qed.

Lemma keys_stay_ascending_witness :
  NoDup (id <$> records (documents archive))
  ∧ keys_ascending
      (save flaky (VStr "d") (VStr "t") invoice (VStr "u2") archive).2
  ∧ keys_ascending (clearUserDocuments sticky (VStr "u1") archive).2
  ∧ keys_ascending pristine.
Proof.
  destruct (keys_stay_ascending flaky archive)
    as (Hdistinct & Hsave & _);
    [ split; [vm_compute; discriminate
             | repeat constructor; vm_compute; discriminate]
    | unfold keys_ascending; repeat constructor | ].
  destruct (keys_stay_ascending sticky archive)
    as (_ & _ & _ & _ & _ & Hclear);
    [ split; [vm_compute; discriminate
             | repeat constructor; vm_compute; discriminate]
    | unfold keys_ascending; repeat constructor | ].
  split; [exact Hdistinct|]. split; [apply Hsave|].
  split; [apply Hclear|]. constructor.
Defined.

(** ** The order of [getByUser] at equal timestamps *)

Lemma sort_insert_stable x l :
  StronglySorted newest_then_lowest_key l →
  Forall (λ y, (id x < id y)%Z) l →
  StronglySorted newest_then_lowest_key
    (sort_insert (λ a b, timestamp (fields b) - timestamp (fields a))%Z x l).
Proof.
  induction 1 as [|y l Hsorted IH Hy]; intros Hx; simpl.
  - repeat constructor.
  - inversion Hx as [|? ? Hxy Hxl]; subst.
    destruct (Z.leb_spec (timestamp (fields y) - timestamp (fields x)) 0)
      as [Hle|Hgt].
    + constructor; [by constructor|].
      constructor; [unfold newest_then_lowest_key; lia|].
      rewrite List.Forall_forall in *. intros z Hz.
      specialize (Hy z Hz). specialize (Hxl z Hz).
      unfold newest_then_lowest_key in *. lia.
    + constructor; [by apply IH|].
      eapply Permutation_Forall.
      { symmetry. apply sort_insert_Permutation. }
      constructor; [unfold newest_then_lowest_key; lia|done].
Qed.

Lemma sort_stable l :
  StronglySorted (λ a b, (id a < id b)%Z) l →
  StronglySorted newest_then_lowest_key
    (sort (λ a b, timestamp (fields b) - timestamp (fields a))%Z l).
Proof.
  induction 1 as [|x l _ IH Hx]; simpl; [constructor|].
  apply sort_insert_stable; [done|].
  eapply Permutation_Forall; [symmetry; apply sort_Permutation|done].
Qed.

(** X10: the order of [getByUser] is fully determined when the store holds
    its records in ascending key order: most recent first and, among
    records with the same timestamp, lowest [id] first (the sort is stable
    and the index yields equal owners in key order). *)
Theorem getByUser_ties_by_key h w u :
  healthy h → u ≠ EmptyString → keys_ascending w →
  ∃ docs w',
    getByUser h (VStr u) w = (Resolved docs, w')
    ∧ StronglySorted newest_then_lowest_key docs.
Proof.
  intros Hh Hu Hsorted.
  destruct (getByUser_runs h w u) as (w' & Hrun & _); [done..|].
  eexists _, w'. split; [exact Hrun|].
  apply sort_stable. by apply StronglySorted_filter.
Qed.

Lemma getByUser_ties_by_key_witness :
  ∃ docs w',
    getByUser steady (VStr "u1") tied = (Resolved docs, w')
    ∧ StronglySorted newest_then_lowest_key docs
    ∧ id <$> docs = [2; 4; 1; 3]%Z.
Proof.
  destruct (getByUser_ties_by_key steady tied "u1")
    as (docs & w' & Hrun & Hsorted);
    [ split; [reflexivity | intros; reflexivity] | discriminate
    | unfold keys_ascending; repeat constructor | ].
  exists docs, w'. split; [exact Hrun|]. split; [exact Hsorted|].
  vm_compute in Hrun. injection Hrun as <- _. reflexivity.
Defined.

(** ** How the operations compose *)

Lemma getById_outcome h key w1 w2 :
  store_get key (documents w1) = store_get key (documents w2) →
  (getById h key w1).1 = (getById h key w2).1.
Proof.
  intros Hsame. unfold getById. destruct (negb (truthy key) || _); [done|].
  unfold_io. simpl. destruct (indexedDB h); simpl; [|done].
  destruct (fault h Open); simpl; [done|].
  destruct (fault h (Get key)); simpl; [done|].
  f_equal. exact Hsame.
Qed.

Lemma find_snoc_miss {A} (p : A → bool) l x :
  p x = false → List.find p (l ++ [x]) = List.find p l.
Proof.
  intros Hx. induction l as [|y l IH]; simpl; [by rewrite Hx|].
  by destruct (p y).
Qed.

Lemma find_filter_keeps {A} (p q : A → bool) l :
  (∀ x, p x = true → q x = true) →
  List.find p (List.filter q l) = List.find p l.
Proof.
  intros Hpq. induction l as [|y l IH]; simpl; [done|].
  destruct (p y) eqn:Hp.
  - by rewrite (Hpq y Hp); simpl; rewrite Hp.
  - destruct (q y); simpl; [by rewrite Hp|done].
Qed.

(** X11: writing under one key does not disturb the others, whatever the
    host does: after [save], [getById] of any key but the generator's
    current number settles as it did before, and after [delete] of a
    numeric key so does [getById] of any other numeric key. *)
Theorem other_keys_undisturbed h w :
  (∀ docId title data userId k,
     k ≠ keygen (documents w) →
     (getById h (of_Z k) (save h docId title data userId w).2).1
     = (getById h (of_Z k) w).1)
  ∧ (∀ deleted k,
       k ≠ deleted →
       (getById h (of_Z k) (delete h (of_Z deleted) w).2).1
       = (getById h (of_Z k) w).1).
Proof.
  split.
  - intros docId title data userId k Hk. apply getById_outcome.
    pose proof (save_effect h w docId title data userId) as Heffect.
    destruct (save h docId title data userId w) as [[k'|e] w']; simpl;
      [|by rewrite Heffect].
    destruct Heffect as [_ ->]. unfold store_get, store_add.
    cbn [snd records]. apply find_snoc_miss. cbn [id]. rewrite key_is_of_Z.
    by apply Z.eqb_neq.
  - intros deleted k Hk. apply getById_outcome.
    pose proof (delete_effect h w (of_Z deleted)) as Heffect.
    destruct (delete h (of_Z deleted) w) as [[[]|e] w']; simpl;
      rewrite Heffect; [|done].
    unfold store_get, store_delete. cbn [records].
    apply find_filter_keeps. intros r. rewrite !key_is_of_Z.
    intros ->%Z.eqb_eq. apply negb_true_iff. by apply Z.eqb_neq.
Qed.

Lemma other_keys_undisturbed_witness :
  (getById steady (of_Z 3)
     (save steady (VStr "d") (VStr "t") invoice (VStr "u9") archive).2).1
  = Resolved (Some (note 3 "u1" 9))
  ∧ (getById steady (of_Z 3) (delete steady (of_Z 1) archive).2).1
    = Resolved (Some (note 3 "u1" 9)).
Proof.
  destruct (other_keys_undisturbed steady archive) as [Hsave Hdelete].
  split.
  - rewrite Hsave; [reflexivity | vm_compute; discriminate].
  - rewrite Hdelete; [reflexivity | discriminate].
Defined.

(** X12: an id given as a string names no record, since every key of the
    store is a generated number: whatever the host does, [getById] of a
    string never resolves with a record, and [delete] of a string leaves
    the store as it was. *)
Theorem string_id_names_nothing h w s :
  (∀ result w', getById h (VStr s) w = (Resolved result, w') → result = None)
  ∧ documents (delete h (VStr s) w).2 = documents w.
Proof.
  assert (∀ rs, Forall (λ r, key_is (VStr s) (id r) = false) rs) as Hnone
    by (intros rs; by apply List.Forall_forall).
  split.
  - intros result w' ->%getById_resolved.
    unfold store_get. by apply find_absent.
  - pose proof (delete_effect h w (VStr s)) as Heffect.
    destruct (delete h (VStr s) w) as [[[]|e] w']; simpl; rewrite Heffect;
      [|done].
    by apply store_delete_absent.
Qed.

Lemma string_id_names_nothing_witness :
  getById steady (VStr "3") archive
  = (Resolved None, (getById steady (VStr "3") archive).2)
  ∧ documents (delete steady (VStr "3") archive).2 = documents archive.
Proof.
  destruct (string_id_names_nothing steady archive "3") as [Hget Hdelete].
  split; [|exact Hdelete].
  destruct (getById steady (VStr "3") archive) as [[result|e] w'] eqn:Hrun.
  - by rewrite (Hget result w' eq_refl).
  - vm_compute in Hrun. discriminate Hrun.
Defined.

Lemma filter_below_key k rs :
  Forall (λ r, (id r < k)%Z) rs →
  List.filter (λ r, negb (key_is (of_Z k) (id r))) rs = rs.
Proof.
  induction 1 as [|r rs Hr _ IH]; cbn [List.filter]; [done|].
  rewrite key_is_of_Z. destruct (Z.eqb_spec k (id r)); [lia|].
  cbn [negb]. f_equal. exact IH.
Qed.

Lemma store_delete_add d s :
  wf_store s →
  store_delete (of_Z (keygen s)) (store_add d s).2
  = {| records := records s; keygen := keygen s + 1 |}.
Proof.
  intros [_ Hkeys]. unfold store_delete, store_add. cbn [snd records keygen].
  f_equal. rewrite List.filter_app. cbn [List.filter id].
  rewrite key_is_of_Z, Z.eqb_refl. simpl. rewrite app_nil_r.
  apply filter_below_key.
  eapply List.Forall_impl; [|exact Hkeys]. simpl. intros r Hr. lia.
Qed.

(** X13: an [id] is never used twice.  On a healthy host, deleting the
    record that [save] has just stored brings the records back to what they
    were and makes [getById] of its key resolve with [null], but the next
    [save] resolves with the following key, not with the freed one. *)
Theorem freed_key_is_not_reused h w d t dat u :
  healthy h → wf w → d ≠ EmptyString → t ≠ EmptyString →
  structured dat = true → u ≠ EmptyString →
  ∃ k w1 w2 w3 w4,
    save h (VStr d) (VStr t) dat (VStr u) w = (Resolved k, w1)
    ∧ delete h (of_Z k) w1 = (Resolved tt, w2)
    ∧ records (documents w2) = records (documents w)
    ∧ getById h (of_Z k) w2 = (Resolved None, w3)
    ∧ save h (VStr d) (VStr t) dat (VStr u) w3 = (Resolved (k + 1)%Z, w4).
Proof.
  intros Hh Hwf Hd Ht Hdat Hu.
  destruct (save_runs h w d t dat u) as (w1 & Hsave & Hw1); try done.
  destruct (delete_runs h w1 (of_Z (keygen (documents w))))
    as (w2 & Hdelete & Hw2); [done|apply generated_key_accepted, Hwf|].
  rewrite Hw1, store_delete_add in Hw2 by done.
  destruct (getById_runs h w2 (of_Z (keygen (documents w))))
    as (w3 & Hget & Hw3); [done|apply generated_key_accepted, Hwf|].
  destruct (save_runs h w3 d t dat u) as (w4 & Hsave' & _); try done.
  exists (keygen (documents w)), w1, w2, w3, w4.
  split; [done|]. split; [done|]. split; [by rewrite Hw2|]. split.
  - rewrite Hget. f_equal. f_equal. unfold store_get. rewrite Hw2.
    cbn [records]. apply find_absent. destruct Hwf as [_ Hkeys].
    eapply List.Forall_impl; [|exact Hkeys]. cbn beta. intros r Hr.
    rewrite key_is_of_Z. apply Z.eqb_neq. lia.
  - rewrite Hsave'. by rewrite Hw3, Hw2.
Qed.

Lemma freed_key_is_not_reused_witness :
  ∃ k w1 w2 w3 w4,
    save steady (VStr "d") (VStr "t") invoice (VStr "u1") archive
    = (Resolved k, w1)
    ∧ delete steady (of_Z k) w1 = (Resolved tt, w2)
    ∧ records (documents w2) = records (documents archive)
    ∧ getById steady (of_Z k) w2 = (Resolved None, w3)
    ∧ save steady (VStr "d") (VStr "t") invoice (VStr "u1") w3
      = (Resolved (k + 1)%Z, w4).
Proof.
  apply (freed_key_is_not_reused steady archive "d" "t" invoice "u1");
    [ split; [reflexivity | intros; reflexivity]
    | split; [vm_compute; discriminate
             | repeat constructor; vm_compute; discriminate]
    | discriminate | discriminate | reflexivity | discriminate ].
Defined.

(** X14: leading and trailing white space of a [userId] is ignored on both
    sides: on a healthy host, a record saved under [u] is listed by
    [getByUser] for every [u'] that trims to the same string, and that list
    is one longer than the owner's list before the save. *)
Theorem saved_record_is_listed h w d t dat u u' :
  healthy h → d ≠ EmptyString → t ≠ EmptyString →
  structured dat = true → u ≠ EmptyString → u' ≠ EmptyString →
  trim u' = trim u →
  ∃ k w1 docs w2,
    save h (VStr d) (VStr t) dat (VStr u) w = (Resolved k, w1)
    ∧ getByUser h (VStr u') w1 = (Resolved docs, w2)
    ∧ In {| id := k;
            fields := built h w (VStr d) (VStr t) dat (VStr u) |} docs
    ∧ length docs = S (length (owned (trim u) w)).
Proof.
  intros Hh Hd Ht Hdat Hu Hu' Htrim.
  destruct (save_runs h w d t dat u) as (w1 & Hsave & Hw1); try done.
  destruct (getByUser_runs h w1 u') as (w2 & Hget & _); try done.
  eexists _, w1, _, w2. split; [exact Hsave|]. split; [exact Hget|].
  set (new := {| id := keygen (documents w);
                 fields := built h w (VStr d) (VStr t) dat (VStr u) |}).
  assert (owned (trim u') w1 = (owned (trim u) w ++ [new])%list) as Howned.
  { unfold owned. rewrite Hw1, Htrim. unfold store_add. cbn [snd records].
    rewrite List.filter_app. f_equal. cbn [List.filter].
    subst new. cbn [fields userId built as_string].
    by rewrite String.eqb_refl. }
  split.
  - apply (Permutation_in new
             (symmetry (sort_Permutation _ (owned (trim u') w1)))).
    rewrite Howned. apply in_or_app. right. by left.
  - rewrite (Permutation_length (sort_Permutation _ _)), Howned.
    rewrite length_app. simpl. lia.
Qed.

Lemma saved_record_is_listed_witness :
  ∃ k w1 docs w2,
    save steady (VStr "d") (VStr "t") invoice (VStr " u1") archive
    = (Resolved k, w1)
    ∧ getByUser steady (VStr "u1  ") w1 = (Resolved docs, w2)
    ∧ In {| id := k;
            fields := built steady archive (VStr "d") (VStr "t") invoice
                        (VStr " u1") |} docs
    ∧ length docs = S (length (owned (trim " u1") archive)).
Proof.
  apply (saved_record_is_listed steady archive "d" "t" invoice " u1" "u1  ");
    [ split; [reflexivity | intros; reflexivity]
    | discriminate | discriminate | reflexivity | discriminate | discriminate
    | reflexivity ].
Defined.

(** ** When the database cannot be opened *)

Lemma save_guards_pass docId title data userId :
  save_precondition docId title data userId = true →
  nonempty_string docId = true ∧ nonempty_string title = true
  ∧ structured data = true ∧ nonempty_string userId = true.
Proof.
  unfold save_precondition.
  by intros [[[? ?]%andb_prop ?]%andb_prop ?]%andb_prop.
Qed.

(** X15: in a browser without IndexedDB every operation called with valid
    arguments is rejected with the message of [initDB], and nothing is
    asked of the database: no request is issued and the store is as it
    was. *)
Theorem without_indexedDB_all_reject h w :
  indexedDB h = false →
  let unsupported := Error "IndexedDB not supported in this browser" in
  (∀ docId title data userId,
     save_precondition docId title data userId = true →
     ∃ w', save h docId title data userId w = (Rejected unsupported, w')
           ∧ untouched w w')
  ∧ (∀ userId,
       nonempty_string userId = true →
       (∃ w', getByUser h userId w = (Rejected unsupported, w')
              ∧ untouched w w')
       ∧ (∃ w', clearUserDocuments h userId w = (Rejected unsupported, w')
                ∧ untouched w w'))
  ∧ (∀ key,
       string_or_nonzero key = true →
       (∃ w', getById h key w = (Rejected unsupported, w') ∧ untouched w w')
       ∧ (∃ w', delete h key w = (Rejected unsupported, w')
                ∧ untouched w w')).
Proof.
  intros Hidb unsupported. split; [|split].
  - intros docId title data userId (Hd & Ht & Hdat & Hu)%save_guards_pass.
    unfold save. rewrite !string_guard, object_guard, Hd, Ht, Hdat, Hu.
    repeat (progress (unfold_io; simpl; rewrite ?Hidb)).
    by eexists.
  - intros userId Hu. split.
    + unfold getByUser. rewrite string_guard, Hu.
      repeat (progress (unfold_io; simpl; rewrite ?Hidb)). by eexists.
    + unfold clearUserDocuments, getByUser. rewrite !string_guard, Hu.
      repeat (progress (unfold_io; simpl; rewrite ?Hidb)). by eexists.
  - intros key Hkey. split.
    + unfold getById. rewrite (id_guard_passes key) by done.
      repeat (progress (unfold_io; simpl; rewrite ?Hidb)). by eexists.
    + unfold delete. rewrite (id_guard_passes key) by done.
      repeat (progress (unfold_io; simpl; rewrite ?Hidb)). by eexists.
Qed.

Lemma without_indexedDB_all_reject_witness :
  (save headless (VStr "d") (VStr "t") invoice (VStr "u1") archive).1
  = Rejected (Error "IndexedDB not supported in this browser")
  ∧ (clearUserDocuments headless (VStr "u1") archive).1
    = Rejected (Error "IndexedDB not supported in this browser")
  ∧ (∃ w', delete headless (of_Z 1) archive
           = (Rejected (Error "IndexedDB not supported in this browser"), w')
           ∧ untouched archive w').
Proof.
  destruct (without_indexedDB_all_reject headless archive eq_refl)
    as (Hsave & Huser & Hkey).
  destruct (Hsave (VStr "d") (VStr "t") invoice (VStr "u1") eq_refl)
    as (w1 & -> & _).
  destruct (Huser (VStr "u1") eq_refl) as (_ & w2 & -> & _).
  destruct (Hkey (of_Z 1) eq_refl) as (_ & Hdelete).
  split; [reflexivity|]. split; [reflexivity | exact Hdelete].
Defined.

(** X16: when the browser refuses to open the database, every operation
    called with valid arguments is rejected with ["Database error: "]
    followed by the message of the fault, or by ["Unknown error"] when the
    fault has none; the open request is the only one issued and the store
    is as it was. *)
Theorem open_failure_all_reject h w message :
  indexedDB h = true → fault h Open = Some message →
  let refused := Error ("Database error: " +:+ reason message) in
  let opened_only w' :=
    documents w' = documents w ∧ issued w' = (issued w ++ [Open])%list in
  (∀ docId title data userId,
     save_precondition docId title data userId = true →
     ∃ w', save h docId title data userId w = (Rejected refused, w')
           ∧ opened_only w')
  ∧ (∀ userId,
       nonempty_string userId = true →
       (∃ w', getByUser h userId w = (Rejected refused, w') ∧ opened_only w')
       ∧ (∃ w', clearUserDocuments h userId w = (Rejected refused, w')
                ∧ opened_only w'))
  ∧ (∀ key,
       string_or_nonzero key = true →
       (∃ w', getById h key w = (Rejected refused, w') ∧ opened_only w')
       ∧ (∃ w', delete h key w = (Rejected refused, w') ∧ opened_only w')).
Proof.
  intros Hidb Hopen refused opened_only. split; [|split].
  - intros docId title data userId (Hd & Ht & Hdat & Hu)%save_guards_pass.
    unfold save. rewrite !string_guard, object_guard, Hd, Ht, Hdat, Hu.
    repeat (progress (unfold_io; simpl; rewrite ?Hidb, ?Hopen)).
    by eexists.
  - intros userId Hu. split.
    + unfold getByUser. rewrite string_guard, Hu.
      repeat (progress (unfold_io; simpl; rewrite ?Hidb, ?Hopen)).
      by eexists.
    + unfold clearUserDocuments, getByUser. rewrite !string_guard, Hu.
      repeat (progress (unfold_io; simpl; rewrite ?Hidb, ?Hopen)).
      by eexists.
  - intros key Hkey. split.
    + unfold getById. rewrite (id_guard_passes key) by done.
      repeat (progress (unfold_io; simpl; rewrite ?Hidb, ?Hopen)).
      by eexists.
    + unfold delete. rewrite (id_guard_passes key) by done.
      repeat (progress (unfold_io; simpl; rewrite ?Hidb, ?Hopen)).
      by eexists.
Qed.

Lemma open_failure_all_reject_witness :
  (save locked (VStr "d") (VStr "t") invoice (VStr "u1") archive).1
  = Rejected (Error "Database error: Unknown error")
  ∧ (getByUser locked (VStr "u1") archive).1
    = Rejected (Error "Database error: Unknown error")
  ∧ (∃ w', delete locked (of_Z 1) archive
           = (Rejected (Error "Database error: Unknown error"), w')
           ∧ documents w' = documents archive
           ∧ issued w' = [Open]).
Proof.
  destruct (open_failure_all_reject locked archive EmptyString eq_refl eq_refl)
    as (Hsave & Huser & Hkey).
  destruct (Hsave (VStr "d") (VStr "t") invoice (VStr "u1") eq_refl)
    as (w1 & -> & _).
  destruct (Huser (VStr "u1") eq_refl) as ((w2 & -> & _) & _).
  destruct (Hkey (of_Z 1) eq_refl) as (_ & Hdelete).
  split; [reflexivity|]. split; [reflexivity | exact Hdelete].
Defined.

(** ** What [clearUserDocuments] touches *)

Lemma same_key_same_record l a b :
  StronglySorted (λ a b, (id a < id b)%Z) l →
  In a l → In b l → id a = id b → a = b.
Proof.
  induction 1 as [|x l _ IH Hx]; [done|].
  rewrite List.Forall_forall in Hx.
  intros [->|Ha] [->|Hb] Hid; [done| | |by apply IH].
  - specialize (Hx b Hb). lia.
  - specialize (Hx a Ha). lia.
Qed.

Lemma filter_filter_keeps {A} (f g : A → bool) l :
  (∀ x, In x l → f x = true → g x = true) →
  List.filter f (List.filter g l) = List.filter f l.
Proof.
  induction l as [|x l IH]; intros Hfg; simpl; [done|].
  assert (List.filter f (List.filter g l) = List.filter f l) as IH'
    by (apply IH; intros y Hy; apply Hfg; by right).
  destruct (f x) eqn:Hf.
  - rewrite (Hfg x (or_introl eq_refl) Hf). simpl. by rewrite Hf, IH'.
  - destruct (g x); simpl; [by rewrite Hf|done].
Qed.

Lemma delete_shrinks h w key r :
  In r (records (documents (delete h key w).2)) →
  In r (records (documents w)).
Proof.
  pose proof (delete_effect h w key) as Heffect.
  destruct (delete h key w) as [[[]|e] w']; simpl; rewrite Heffect; [|done].
  by intros [? _]%filter_In.
Qed.

Lemma delete_keeps_owned h w k other :
  (∀ r, In r (records (documents w)) → id r = k →
        userId (fields r) ≠ other) →
  owned other (delete h (of_Z k) w).2 = owned other w.
Proof.
  intros Hk. unfold owned.
  pose proof (delete_effect h w (of_Z k)) as Heffect.
  destruct (delete h (of_Z k) w) as [[[]|e] w']; simpl; rewrite Heffect;
    [|done].
  unfold store_delete. cbn [records]. apply filter_filter_keeps.
  intros r Hr Huser. rewrite key_is_of_Z. apply negb_true_iff, Z.eqb_neq.
  intros Heq. apply String.eqb_eq in Huser. by apply (Hk r).
Qed.

Lemma Promise_all_deletes_keep_owned h other docs : ∀ w,
  (∀ doc r, In doc docs → In r (records (documents w)) → id r = id doc →
            userId (fields r) ≠ other) →
  owned other (Promise_all ((λ doc, delete h (of_Z (id doc))) <$> docs) w).2
  = owned other w.
Proof.
  induction docs as [|doc docs IH]; intros w Hdocs; csimpl; [done|].
  assert (owned other (delete h (of_Z (id doc)) w).2 = owned other w)
    as Hfirst.
  { apply delete_keeps_owned. intros r Hr Hid.
    by apply (Hdocs doc r); [left|..]. }
  assert (∀ doc' r, In doc' docs →
            In r (records (documents (delete h (of_Z (id doc)) w).2)) →
            id r = id doc' → userId (fields r) ≠ other) as Hrest.
  { intros doc' r Hdoc' Hr. apply (Hdocs doc' r); [by right|].
    by apply delete_shrinks in Hr. }
  destruct (delete h (of_Z (id doc)) w) as [first w1]. simpl in *.
  specialize (IH w1 Hrest).
  destruct (Promise_all _ w1) as [others w2]. simpl in *. congruence.
Qed.

(** X17: [clearUserDocuments] never touches the records of another user,
    whatever the host does and even when it fails half way: in a store with
    keys in ascending order, the records of every other owner are after the
    call what they were before it. *)
Theorem clearUserDocuments_spares_others h w userId other :
  keys_ascending w → other ≠ trim (as_string userId) →
  owned other (clearUserDocuments h userId w).2 = owned other w.
Proof.
  intros Hsorted Hother. unfold clearUserDocuments. rewrite string_guard.
  destruct (nonempty_string userId); [|done]. simpl.
  unfold mbind at 1, io_bind at 1, when_, mret at 1, io_ret at 1, try_catch.
  unfold mbind at 1, io_bind at 1.
  pose proof (getByUser_effect h w userId) as Hstore.
  destruct (getByUser h userId w) as [[docs|e] w1] eqn:Hget;
    simpl in Hstore; [|unfold owned; rewrite <- Hstore; reflexivity].
  apply getByUser_resolved in Hget
    as (u & -> & _ & _ & _ & _ & Hdocs & _).
  unfold mbind at 1, io_bind at 1.
  assert (owned other
            (Promise_all ((λ doc, delete h (of_Z (id doc))) <$> docs) w1).2
          = owned other w1) as Hall.
  { apply Promise_all_deletes_keep_owned. intros doc r Hdoc Hr Hid.
    rewrite Hstore in Hr.
    assert (In doc (owned (trim u) w)) as Hin.
    { apply (Permutation_in doc (sort_Permutation
               (λ a b, timestamp (fields b) - timestamp (fields a))%Z
               (owned (trim u) w))). by rewrite <- Hdocs. }
    apply filter_In in Hin as [Hin Huser]. apply String.eqb_eq in Huser.
    rewrite (same_key_same_record _ r doc Hsorted Hr Hin Hid).
    simpl in Hother. congruence. }
  assert (owned other w1 = owned other w) as Hw1
    by (unfold owned; by rewrite Hstore).
  destruct (Promise_all _ w1) as [[l|e] w2]; cbn [snd] in Hall;
    rewrite <- Hw1, <- Hall; reflexivity.
Qed.

Lemma clearUserDocuments_spares_others_witness :
  owned "u2" (clearUserDocuments sticky (VStr "u1") archive).2
  = [note 2 "u2" 7]
  ∧ (clearUserDocuments sticky (VStr "u1") archive).1
    = Rejected (Error "Delete failed: locked row").
Proof.
  split; [|vm_compute; reflexivity].
  rewrite (clearUserDocuments_spares_others sticky archive (VStr "u1") "u2");
    [ reflexivity | unfold keys_ascending; repeat constructor | discriminate ].
Defined.

(** ** [clearUserDocuments] when some deletes fail *)

Lemma delete_on_open_host h w k :
  (1 ≤ k)%Z → indexedDB h = true → fault h Open = None →
  ∃ w',
    delete h (of_Z k) w
    = (match fault h (Delete (of_Z k)) with
       | Some message => Rejected (Error ("Delete failed: " +:+ reason message))
       | None => Resolved tt
       end, w')
    ∧ documents w'
      = match fault h (Delete (of_Z k)) with
        | Some _ => documents w
        | None => store_delete (of_Z k) (documents w)
        end.
Proof.
  intros Hk Hidb Hopen. unfold delete.
  rewrite (id_guard_passes (of_Z k)) by (by apply generated_key_accepted).
  repeat (progress (unfold_io; simpl; rewrite ?Hidb, ?Hopen)).
  destruct (fault h (Delete (of_Z k))); simpl; by eexists.
Qed.

Lemma filter_filter_and {A} (f g : A → bool) l :
  List.filter f (List.filter g l) = List.filter (λ x, g x && f x) l.
Proof.
  induction l as [|x l IH]; simpl; [done|].
  destruct (g x); simpl; [|done]. destruct (f x); by rewrite IH.
Qed.

Lemma Promise_all_deletes_on_open_host h docs : ∀ w,
  Forall (λ doc, (1 ≤ id doc)%Z) docs →
  indexedDB h = true → fault h Open = None →
  ∃ o w',
    Promise_all ((λ doc, delete h (of_Z (id doc))) <$> docs) w = (o, w')
    ∧ records (documents w')
      = List.filter (survives h docs) (records (documents w))
    ∧ match List.filter (delete_fails h) docs with
      | [] => ∃ l, o = Resolved l
      | r :: _ =>
          ∃ message,
            fault h (Delete (of_Z (id r))) = Some message
            ∧ o = Rejected (Error ("Delete failed: " +:+ reason message))
      end.
Proof.
  intros w Hdocs Hidb Hopen. revert w.
  induction Hdocs as [|doc docs Hdoc _ IH]; intros w.
  - eexists _, _. split; [reflexivity|]. split; [|by eexists].
    unfold survives. simpl. induction (records (documents w)) as [|r l IHl];
      simpl; [done|]. by rewrite <- IHl.
  - destruct (delete_on_open_host h w (id doc)) as (w1 & Hrun & Hw1);
      [done..|].
    destruct (IH w1) as (o & w2 & Hrest & Hrecords & Hfirst).
    cbn [fmap list_fmap Promise_all]. rewrite Hrun, Hrest.
    eexists _, w2. split; [reflexivity|]. split.
    + rewrite Hrecords, Hw1.
      assert (∀ r, survives h (doc :: docs) r
                   = (delete_fails h doc || negb (id doc =? id r)%Z)
                     && survives h docs r) as Hcons by done.
      unfold delete_fails in Hcons at 1.
      destruct (fault h (Delete (of_Z (id doc)))) as [message|].
      * apply filter_ext. intros r. by rewrite Hcons.
      * unfold store_delete. cbn [records]. rewrite filter_filter_and.
        apply filter_ext. intros r. by rewrite Hcons, key_is_of_Z.
    + cbn [List.filter]. unfold delete_fails at 1.
      destruct (fault h (Delete (of_Z (id doc)))) as [message|] eqn:Hfault.
      * by exists message.
      * destruct (List.filter (delete_fails h) docs) as [|r rest].
        -- destruct Hfirst as [l ->]. by eexists.
        -- destruct Hfirst as (message & Hmessage & ->). by exists message.
Qed.

Lemma survives_is_failing h docs r :
  In r docs → survives h docs r = delete_fails h r.
Proof.
  intros Hr. unfold survives. destruct (delete_fails h r) eqn:Hfails.
  - apply forallb_forall. intros doc _.
    destruct (Z.eqb_spec (id doc) (id r)) as [Hid|]; [|by rewrite orb_true_r].
    unfold delete_fails in *. by rewrite Hid, Hfails.
  - apply not_true_is_false. intros Hall.
    rewrite forallb_forall in Hall. specialize (Hall r Hr).
    by rewrite Hfails, Z.eqb_refl in Hall.
Qed.

(** X18: [clearUserDocuments] is not atomic.  When the database opens and
    the read succeeds, every delete is attempted; the owner's records left
    afterwards are exactly those whose delete the host failed; the call
    resolves with the number of records read when no delete failed, and is
    otherwise rejected with the error of the first failing delete, in the
    order of [getByUser]. *)
Theorem clearUserDocuments_partial h w u :
  wf w → u ≠ EmptyString → indexedDB h = true → fault h Open = None →
  fault h (GetAll (trim u)) = None →
  ∃ o w',
    clearUserDocuments h (VStr u) w = (o, w')
    ∧ owned (trim u) w' = List.filter (delete_fails h) (owned (trim u) w)
    ∧ match
        List.filter (delete_fails h)
          (sort (λ a b, timestamp (fields b) - timestamp (fields a))%Z
             (owned (trim u) w))
      with
      | [] => o = Resolved (length (owned (trim u) w))
      | r :: _ =>
          ∃ message,
            fault h (Delete (of_Z (id r))) = Some message
            ∧ o = Rejected (Error ("Delete failed: " +:+ reason message))
      end.
Proof.
  intros Hwf Hu Hidb Hopen Hgetall.
  destruct (getByUser_serves h w u) as (w1 & Hget & Hw1); [done..|].
  set (docs := sort _ _) in *.
  assert (docs ≡ₚ owned (trim u) w) as Hperm by apply sort_Permutation.
  destruct (Promise_all_deletes_on_open_host h docs w1)
    as (o & w2 & Hall & Hrecords & Hfirst); [|done..|].
  { eapply Permutation_Forall; [symmetry; exact Hperm|].
    apply List.Forall_forall. intros r [Hr _]%filter_In.
    destruct Hwf as [_ Hkeys]. rewrite List.Forall_forall in Hkeys.
    by destruct (Hkeys r Hr). }
  assert (∀ w', documents w' = documents w2 →
            owned (trim u) w'
            = List.filter (delete_fails h) (owned (trim u) w)) as Howned.
  { intros w' Hw'. unfold owned. rewrite Hw', Hrecords, Hw1.
    rewrite !filter_filter_and. apply filter_ext_in. intros r Hr.
    destruct (String.eqb (userId (fields r)) (trim u)) eqn:Huser;
      [|by rewrite andb_false_r].
    rewrite !andb_true_r, andb_true_l. apply survives_is_failing.
    apply (Permutation_in r (symmetry Hperm)). apply filter_In. by split. }
  unfold clearUserDocuments. rewrite string_guard. simpl.
  rewrite (nonempty_truthy u) by done. simpl.
  unfold mbind at 1, io_bind at 1, when_, mret at 1, io_ret at 1, try_catch.
  unfold mbind at 1, io_bind at 1. rewrite Hget.
  unfold mbind at 1, io_bind at 1. rewrite Hall.
  destruct (List.filter (delete_fails h) docs) as [|r rest].
  - destruct Hfirst as [l ->]. unfold_io.
    eexists _, _. split; [reflexivity|]. split; [by apply Howned|].
    by rewrite (Permutation_length Hperm).
  - destruct Hfirst as (message & Hmessage & ->). unfold_io.
    eexists _, _. split; [reflexivity|]. split; [by apply Howned|].
    by exists message.
Qed.

Lemma clearUserDocuments_partial_witness :
  ∃ w',
    clearUserDocuments sticky (VStr "u1") archive
    = (Rejected (Error "Delete failed: locked row"), w')
    ∧ owned "u1" w' = [note 3 "u1" 9]
    ∧ owned "u2" w' = [note 2 "u2" 7].
Proof.
  destruct (clearUserDocuments_partial sticky archive "u1")
    as (o & w' & Hrun & Howned & Hfirst);
    [ split; [vm_compute; discriminate
             | repeat constructor; vm_compute; discriminate]
    | discriminate | reflexivity | reflexivity | reflexivity | ].
  destruct Hfirst as (message & Hmessage & ->).
  injection Hmessage as <-.
  exists w'. split; [exact Hrun|]. split; [exact Howned|].
  vm_compute in Hrun. injection Hrun as <-. reflexivity.
Defined.

(** ** Validation comes before trimming *)

(** X19: a [userId] made only of white space passes the validation of
    [save] and is stored as the empty string.  On a healthy host the record
    is saved, its stored owner is empty, and handing that stored owner back
    to [getByUser] or [clearUserDocuments] is rejected by their validation,
    while the blank [userId] itself still lists the record. *)
Theorem blank_owner_is_stored_empty h w d t dat u :
  healthy h → wf w → d ≠ EmptyString → t ≠ EmptyString →
  structured dat = true → u ≠ EmptyString → trim u = EmptyString →
  ∃ k w1 r w2 docs w3,
    save h (VStr d) (VStr t) dat (VStr u) w = (Resolved k, w1)
    ∧ getById h (of_Z k) w1 = (Resolved (Some r), w2)
    ∧ userId (fields r) = EmptyString
    ∧ getByUser h (VStr (userId (fields r))) w2
      = (Rejected (Error "Invalid userId provided"), w2)
    ∧ clearUserDocuments h (VStr (userId (fields r))) w2
      = (Rejected (Error "Invalid userId provided"), w2)
    ∧ getByUser h (VStr u) w2 = (Resolved docs, w3)
    ∧ In r docs.
Proof.
  intros Hh Hwf Hd Ht Hdat Hu Hblank.
  destruct (save_then_lookup h w d t dat u) as (w1 & w2 & Hsave & Hget);
    try done.
  destruct (save_runs h w d t dat u) as (w1' & Hsave' & Hw1); try done.
  assert (w1' = w1) as -> by congruence.
  pose proof (getById_effect h w1 (of_Z (keygen (documents w)))) as Hw2.
  rewrite Hget in Hw2. simpl in Hw2.
  destruct (getByUser_runs h w2 u) as (w3 & Hlist & _); try done.
  eexists _, w1, _, w2, _, w3.
  split; [exact Hsave|]. split; [exact Hget|]. cbn [fields userId].
  rewrite Hblank. split; [done|].
  split; [by apply getByUser_invalid|].
  split; [by apply clearUserDocuments_invalid|].
  split; [exact Hlist|].
  apply (Permutation_in _ (symmetry (sort_Permutation _ _))).
  unfold owned. rewrite Hw2, Hw1, Hblank. unfold store_add.
  cbn [snd records]. apply filter_In. split; [|done].
  apply in_or_app. right. by left.
Qed.

Lemma blank_owner_is_stored_empty_witness :
  ∃ k w1 r w2 docs w3,
    save steady (VStr "d") (VStr "t") invoice (VStr "  ") archive
    = (Resolved k, w1)
    ∧ getById steady (of_Z k) w1 = (Resolved (Some r), w2)
    ∧ userId (fields r) = EmptyString
    ∧ getByUser steady (VStr (userId (fields r))) w2
      = (Rejected (Error "Invalid userId provided"), w2)
    ∧ clearUserDocuments steady (VStr (userId (fields r))) w2
      = (Rejected (Error "Invalid userId provided"), w2)
    ∧ getByUser steady (VStr "  ") w2 = (Resolved docs, w3)
    ∧ In r docs.
Proof.
  apply (blank_owner_is_stored_empty steady archive "d" "t" invoice "  ");
    [ split; [reflexivity | intros; reflexivity]
    | split; [vm_compute; discriminate
             | repeat constructor; vm_compute; discriminate]
    | discriminate | discriminate | reflexivity | discriminate
    | reflexivity ].
Defined.

(** ** When a request fails *)

(** X20: when the database opens but the browser fails the request of an
    operation, the operation is rejected with its own prefix followed by
    the message of the fault (["Unknown error"] when there is none):
    ["Add operation failed: "] for [save], ["GetAll failed: "] for
    [getByUser], ["Get failed: "] for [getById] and ["Delete failed: "] for
    [delete]. *)
Theorem request_failure_is_reported h w message :
  indexedDB h = true → fault h Open = None →
  (∀ docId title data userId,
     save_precondition docId title data userId = true →
     fault h (Add (built h w docId title data userId)) = Some message →
     (save h docId title data userId w).1
     = Rejected (Error ("Add operation failed: " +:+ reason message)))
  ∧ (∀ userId,
       nonempty_string userId = true →
       fault h (GetAll (trim (as_string userId))) = Some message →
       (getByUser h userId w).1
       = Rejected (Error ("GetAll failed: " +:+ reason message)))
  ∧ (∀ key,
       string_or_nonzero key = true →
       (fault h (Get key) = Some message →
        (getById h key w).1
        = Rejected (Error ("Get failed: " +:+ reason message)))
       ∧ (fault h (Delete key) = Some message →
          (delete h key w).1
          = Rejected (Error ("Delete failed: " +:+ reason message)))).
Proof.
  intros Hidb Hopen. split; [|split].
  - intros docId title data userId (Hd & Ht & Hdat & Hu)%save_guards_pass
      Hfault.
    unfold built in Hfault. unfold save.
    rewrite !string_guard, object_guard, Hd, Ht, Hdat, Hu.
    by repeat (progress (unfold_io; simpl; rewrite ?Hidb, ?Hopen, ?Hfault)).
  - intros userId Hu Hfault. unfold getByUser. rewrite string_guard, Hu.
    by repeat (progress (unfold_io; simpl; rewrite ?Hidb, ?Hopen, ?Hfault)).
  - intros key Hkey. split; intros Hfault.
    + unfold getById. rewrite (id_guard_passes key) by done.
      by repeat (progress (unfold_io; simpl; rewrite ?Hidb, ?Hopen, ?Hfault)).
    + unfold delete. rewrite (id_guard_passes key) by done.
      by repeat (progress (unfold_io; simpl; rewrite ?Hidb, ?Hopen, ?Hfault)).
Qed.

Lemma request_failure_is_reported_witness :
  (getById flaky (of_Z 1) archive).1 = Rejected (Error "Get failed: quota")
  ∧ (delete flaky (VStr "x") archive).1
    = Rejected (Error "Delete failed: quota").
Proof.
  destruct (request_failure_is_reported flaky archive "quota" eq_refl eq_refl)
    as (_ & _ & Hkey).
  split.
  - apply (proj1 (Hkey (of_Z 1) eq_refl)). reflexivity.
  - apply (proj2 (Hkey (VStr "x") eq_refl)). reflexivity.
Defined.

(** ** The rate limiter *)

Lemma length_filter_le {A} (p q : A → bool) l :
  (∀ x, p x = true → q x = true) →
  (length (List.filter p l) ≤ length (List.filter q l))%nat.
Proof.
  intros Hpq. induction l as [|x l IH]; simpl; [done|].
  destruct (p x) eqn:Hp.
  - rewrite (Hpq x Hp). simpl. lia.
  - destruct (q x); simpl; lia.
Qed.

Lemma filter_recent_twice n now l :
  (n ≤ now)%Z →
  List.filter (λ time, (now - time <? rateLimiter.timeWindow)%Z)
    (List.filter (λ time, (n - time <? rateLimiter.timeWindow)%Z) l)
  = List.filter (λ time, (now - time <? rateLimiter.timeWindow)%Z) l.
Proof.
  intros Hn. apply filter_filter_keeps. intros t _ Ht.
  apply Z.ltb_lt. apply Z.ltb_lt in Ht. lia.
Qed.

Lemma canMakeCall_other now apiType other calls :
  other ≠ apiType →
  (rateLimiter.canMakeCall now apiType calls).2 !! other = calls !! other.
Proof.
  intros Hother. unfold rateLimiter.canMakeCall.
  destruct (_ <=? _)%nat; simpl; by rewrite lookup_insert_ne.
Qed.

Lemma times_of_cons apiType now type log :
  times_of apiType ((now, type) :: log)
  = if String.eqb type apiType then now :: times_of apiType log
    else times_of apiType log.
Proof. unfold times_of. simpl. by destruct (String.eqb type apiType). Qed.

Lemma replay_window events : ∀ calls seen last apiType,
  Sorted Z.le (last :: events.*1) →
  (∀ now, (last ≤ now)%Z →
     List.filter (λ time, (now - time <? rateLimiter.timeWindow)%Z) seen
     = List.filter (λ time, (now - time <? rateLimiter.timeWindow)%Z)
         (default [] (calls !! apiType))) →
  (∀ T, (length (List.filter (within T) seen) ≤ rateLimiter.maxCalls)%nat) →
  ∀ T,
    (length (List.filter (within T)
               (seen ++ times_of apiType (replay events calls).1))
     ≤ rateLimiter.maxCalls)%nat.
Proof.
  induction events as [|[n type] events IH];
    intros calls seen last apiType Hsorted Hrecent Hbound T.
  - simpl. unfold times_of. simpl. by rewrite app_nil_r.
  - csimpl in Hsorted. apply Sorted_inv in Hsorted as [Hsorted Hlast].
    apply HdRel_inv in Hlast.
    cbn [replay].
    destruct (rateLimiter.canMakeCall n type calls) as [allowed calls']
      eqn:Hcall.
    destruct (replay events calls') as [later final] eqn:Hreplay.
    assert (later = (replay events calls').1) as Hlater by (by rewrite Hreplay).
    destruct (decide (type = apiType)) as [->|Hother].
    + unfold rateLimiter.canMakeCall in Hcall.
      set (recent := List.filter _ (default [] (calls !! apiType))) in Hcall.
      assert (List.filter (λ time, (n - time <? rateLimiter.timeWindow)%Z) seen
              = recent) as Hseen by (by apply Hrecent).
      destruct (rateLimiter.maxCalls <=? length recent)%nat eqn:Hfull;
        injection Hcall as <- <-.
      * rewrite Hlater. apply (IH _ seen n); [done| |done].
        intros now Hnow. rewrite lookup_insert_eq. simpl.
        subst recent. rewrite filter_recent_twice by done.
        apply Hrecent. lia.
      * cbn [fst]. rewrite times_of_cons, String.eqb_refl.
        rewrite (cons_middle n), app_assoc, Hlater.
        apply (IH _ (seen ++ [n])%list n); [done| |].
        -- intros now Hnow. rewrite lookup_insert_eq. simpl.
           rewrite !List.filter_app. f_equal. subst recent.
           rewrite filter_recent_twice by done. apply Hrecent. lia.
        -- intros T'. rewrite List.filter_app, length_app. simpl.
           destruct (within T' n) eqn:Hn; simpl; [|rewrite Nat.add_0_r; apply Hbound].
           apply Nat.leb_gt in Hfull.
           assert (length (List.filter (within T') seen) ≤ length recent)%nat;
             [|lia].
           rewrite <- Hseen. apply length_filter_le. intros t Ht.
           unfold within in *. apply andb_prop in Hn as [_ Hn].
           apply andb_prop in Ht as [Ht _].
           apply Z.ltb_lt. apply Z.ltb_lt in Ht. apply Z.leb_le in Hn. lia.
    + cbn [fst].
      assert (times_of apiType
                (if allowed then (n, type) :: later else later)
              = times_of apiType later) as ->.
      { destruct allowed; [|done]. rewrite times_of_cons.
        destruct (String.eqb_spec type apiType); [done|done]. }
      rewrite Hlater. apply (IH _ seen n); [done| |done].
      intros now Hnow.
      assert (calls' = (rateLimiter.canMakeCall n type calls).2) as ->
        by (by rewrite Hcall).
      rewrite canMakeCall_other by done. apply Hrecent. lia.
Qed.

(** X21: the rate limiter keeps its promise over any window.  For calls
    made at non-decreasing clock readings, starting with no call recorded,
    the calls of one API type that [canMakeCall] allowed within any span of
    [timeWindow] milliseconds number at most [maxCalls], whatever calls of
    other types come in between. *)
Theorem at_most_maxCalls_per_window events apiType T :
  Sorted Z.le events.*1 →
  (length (List.filter (within T) (times_of apiType (replay events ∅).1))
   ≤ rateLimiter.maxCalls)%nat.
Proof.
  intros Hsorted. destruct events as [|[n type] events].
  - unfold rateLimiter.maxCalls. simpl. lia.
  - apply (replay_window ((n, type) :: events) ∅ [] n apiType).
    + constructor; [done|]. constructor. simpl. lia.
    + intros now _. by rewrite lookup_empty.
    + intros T'. unfold rateLimiter.maxCalls. simpl. lia.
Qed.

Lemma at_most_maxCalls_per_window_witness :
  (length (List.filter (within 11) (times_of "exchange" (replay burst ∅).1))
   ≤ rateLimiter.maxCalls)%nat.
Proof.
  apply at_most_maxCalls_per_window.
  unfold burst. simpl. repeat constructor; lia.
Defined.

Example burst_allows_ten :
  times_of "exchange" (replay burst ∅).1 = [0; 1; 2; 3; 4; 5; 6; 7; 8; 9]%Z
  ∧ times_of "pincode" (replay burst ∅).1 = [6%Z].
Proof. vm_compute. done. Qed.

Lemma canMakeCall_bounded now apiType calls :
  (∀ a, (length (default [] (calls !! a)) ≤ rateLimiter.maxCalls)%nat) →
  ∀ a,
    (length (default [] ((rateLimiter.canMakeCall now apiType calls).2 !! a))
     ≤ rateLimiter.maxCalls)%nat.
Proof.
  intros Hcalls a. unfold rateLimiter.canMakeCall.
  set (recent := List.filter _ (default [] (calls !! apiType))).
  assert (length recent ≤ rateLimiter.maxCalls)%nat as Hrecent.
  { etrans; [apply List.filter_length_le|apply Hcalls]. }
  destruct (rateLimiter.maxCalls <=? length recent)%nat eqn:Hfull; simpl;
    (destruct (decide (a = apiType)) as [->|Hother];
       [rewrite lookup_insert_eq | by rewrite lookup_insert_ne]); simpl.
  - done.
  - apply Nat.leb_gt in Hfull. rewrite length_app. simpl. lia.
Qed.

(** X22: the limiter's memory is bounded: starting with no call recorded,
    after any sequence of calls, whatever the clock reads, no API type has
    more than [maxCalls] times on record. *)
Theorem recorded_calls_bounded events apiType :
  (length (default [] ((replay events ∅).2 !! apiType))
   ≤ rateLimiter.maxCalls)%nat.
Proof.
  assert (∀ calls,
            (∀ a, (length (default [] (calls !! a))
                   ≤ rateLimiter.maxCalls)%nat) →
            ∀ a, (length (default [] ((replay events calls).2 !! a))
                  ≤ rateLimiter.maxCalls)%nat) as Hgeneral.
  { induction events as [|[n type] events IH]; intros calls Hcalls a;
      [by apply Hcalls|].
    cbn [replay].
    pose proof (canMakeCall_bounded n type calls Hcalls) as Hstep.
    destruct (rateLimiter.canMakeCall n type calls) as [allowed calls'].
    specialize (IH calls' Hstep a).
    by destruct (replay events calls') as [later final]. }
  apply Hgeneral. intros a. rewrite lookup_empty. simpl.
  unfold rateLimiter.maxCalls. lia.
Qed.

Lemma replay_alone events apiType : ∀ calls calls',
  calls !! apiType = calls' !! apiType →
  times_of apiType (replay events calls).1
  = times_of apiType
      (replay (List.filter (λ e, String.eqb e.2 apiType) events) calls').1.
Proof.
  induction events as [|[n type] events IH]; intros calls calls' Hsame;
    [done|].
  cbn [replay List.filter snd].
  destruct (String.eqb_spec type apiType) as [->|Hother].
  - cbn [replay]. unfold rateLimiter.canMakeCall. rewrite <- Hsame.
    set (recent := List.filter _ (default [] (calls !! apiType))).
    destruct (rateLimiter.maxCalls <=? length recent)%nat.
    + specialize (IH (<[apiType:=recent]> calls) (<[apiType:=recent]> calls')).
      destruct (replay events (<[apiType:=recent]> calls)) as [later final].
      destruct (replay _ (<[apiType:=recent]> calls')) as [later' final'].
      apply IH. by rewrite !lookup_insert_eq.
    + specialize (IH (<[apiType:=(recent ++ [n])%list]> calls)
                     (<[apiType:=(recent ++ [n])%list]> calls')).
      destruct (replay events (<[apiType:=(recent ++ [n])%list]> calls))
        as [later final].
      destruct (replay _ (<[apiType:=(recent ++ [n])%list]> calls'))
        as [later' final'].
      cbn [fst] in *. rewrite !times_of_cons, String.eqb_refl. f_equal.
      apply IH. by rewrite !lookup_insert_eq.
  - pose proof (canMakeCall_other n type apiType calls) as Hstep.
    destruct (rateLimiter.canMakeCall n type calls) as [allowed calls1].
    simpl in Hstep.
    specialize (IH calls1 calls').
    destruct (replay events calls1) as [later final]. cbn [fst] in *.
    assert (times_of apiType (if allowed then (n, type) :: later else later)
            = times_of apiType later) as ->.
    { destruct allowed; [|done]. rewrite times_of_cons.
      by destruct (String.eqb_spec type apiType). }
    apply IH. rewrite Hstep; [done|]. by intros ->.
Qed.

(** X23: the API types are rate limited independently: which calls of one
    type are allowed is the same whether or not calls of other types are
    made in between. *)
Theorem types_do_not_interfere events apiType :
  times_of apiType (replay events ∅).1
  = times_of apiType
      (replay (List.filter (λ e, String.eqb e.2 apiType) events) ∅).1.
Proof. by apply replay_alone. Qed.

(** ** Invariants of the store *)

(** X24: the key generator stays ahead of the keys.  In a fresh profile,
    and after any operation on a store where it held, whatever the host
    does: the generator's number is at least 1 and every [id] in the store
    is at least 1 and below it. *)
Theorem key_generator_stays_ahead h w :
  wf pristine
  ∧ (wf w →
     (∀ docId title data userId, wf (save h docId title data userId w).2)
     ∧ (∀ userId, wf (getByUser h userId w).2)
     ∧ (∀ key, wf (getById h key w).2)
     ∧ (∀ key, wf (delete h key w).2)
     ∧ (∀ userId, wf (clearUserDocuments h userId w).2)).
Proof.
  split; [apply wf_pristine|]. intros Hwf.
  split; [intros; by apply save_keeps_wf|].
  split; [intros; by apply getByUser_keeps_wf|].
  split; [intros; by apply getById_keeps_wf|].
  split; [intros; by apply delete_keeps_wf|].
  intros; by apply clearUserDocuments_keeps_wf.
Qed.

Lemma key_generator_stays_ahead_witness :
  wf (save flaky (VStr "d") (VStr "t") invoice (VStr "u1") archive).2
  ∧ wf (clearUserDocuments sticky (VStr "u1") archive).2.
Proof.
  destruct (key_generator_stays_ahead flaky archive) as [_ Hflaky].
  destruct (key_generator_stays_ahead sticky archive) as [_ Hsticky].
  assert (wf archive) as Hwf
    by (split; [vm_compute; discriminate
               | repeat constructor; vm_compute; discriminate]).
  destruct (Hflaky Hwf) as (Hsave & _).
  destruct (Hsticky Hwf) as (_ & _ & _ & _ & Hclear).
  split; [exact (Hsave _ _ _ _) | exact (Hclear _)].
Defined.

Lemma payloads_escaped_same w w' :
  documents w' = documents w → payloads_escaped w → payloads_escaped w'.
Proof. unfold payloads_escaped. by intros ->. Qed.

Lemma delete_keeps_payloads h w key :
  payloads_escaped w → payloads_escaped (delete h key w).2.
Proof.
  intros Hw. pose proof (delete_effect h w key) as Heffect.
  destruct (delete h key w) as [[[]|e] w']; simpl;
    [|by apply (payloads_escaped_same w)].
  unfold payloads_escaped. rewrite Heffect. simpl.
  apply List.Forall_forall. intros r [Hr _]%filter_In.
  unfold payloads_escaped in Hw. rewrite List.Forall_forall in Hw.
  by apply Hw.
Qed.

Lemma Promise_all_deletes_keep_payloads h docs : ∀ w,
  payloads_escaped w →
  payloads_escaped
    (Promise_all ((λ doc, delete h (of_Z (id doc))) <$> docs) w).2.
Proof.
  induction docs as [|doc docs IH]; intros w Hw; csimpl; [done|].
  pose proof (delete_keeps_payloads h w (of_Z (id doc)) Hw) as Hdoc.
  destruct (delete h (of_Z (id doc)) w) as [first w1]. simpl in Hdoc.
  pose proof (IH w1 Hdoc) as Hrest.
  by destruct (Promise_all _ w1) as [others w2].
Qed.

(** X25: every payload in the store is sanitized.  The store of a fresh
    profile holds, and every operation keeps on any host, that in the
    [data] of every record no string held under a mapping key contains one
    of the five raw characters. *)
Theorem stored_payloads_stay_escaped h w :
  payloads_escaped pristine
  ∧ (payloads_escaped w →
     (∀ docId title data userId,
        payloads_escaped (save h docId title data userId w).2)
     ∧ (∀ userId, payloads_escaped (getByUser h userId w).2)
     ∧ (∀ key, payloads_escaped (getById h key w).2)
     ∧ (∀ key, payloads_escaped (delete h key w).2)
     ∧ (∀ userId, payloads_escaped (clearUserDocuments h userId w).2)).
Proof.
  split; [constructor|]. intros Hw. split; [|split; [|split; [|split]]].
  - intros docId title data userId.
    pose proof (save_effect h w docId title data userId) as Heffect.
    destruct (save h docId title data userId w) as [[k|e] w']; simpl;
      [|by apply (payloads_escaped_same w)].
    destruct Heffect as [_ Heffect]. unfold payloads_escaped.
    rewrite Heffect. simpl. apply Forall_app. split; [done|].
    constructor; [|done]. simpl. apply keyed_strings_escaped_sanitized.
  - intros userId. apply (payloads_escaped_same w); [|done].
    apply getByUser_effect.
  - intros key. apply (payloads_escaped_same w); [|done].
    apply getById_effect.
  - intros key. by apply delete_keeps_payloads.
  - intros userId. unfold clearUserDocuments. rewrite string_guard.
    destruct (nonempty_string userId); [|done]. simpl.
    unfold mbind at 1, io_bind at 1, when_, mret at 1, io_ret at 1, try_catch.
    unfold mbind at 1, io_bind at 1.
    assert (payloads_escaped (getByUser h userId w).2) as Hget
      by (apply (payloads_escaped_same w); [apply getByUser_effect|done]).
    destruct (getByUser h userId w) as [[docs|e] w1]; [|done].
    unfold mbind at 1, io_bind at 1.
    pose proof (Promise_all_deletes_keep_payloads h docs w1 Hget) as Hall.
    by destruct (Promise_all _ w1) as [[l|e] w2].
Qed.

Lemma stored_payloads_stay_escaped_witness :
  payloads_escaped archive
  ∧ payloads_escaped
      (save steady (VStr "d") (VStr "t")
         (VObj [("note", VStr "<script>"); ("tags", VArr [VStr "<b>"])])
         (VStr "u1") archive).2.
Proof.
  assert (payloads_escaped archive) as Hw by (repeat constructor).
  split; [exact Hw|].
  destruct (stored_payloads_stay_escaped steady archive) as [_ Hkept].
  destruct (Hkept Hw) as (Hsave & _). exact (Hsave _ _ _ _).
Defined.
